(** * Delivery scheduling and routing (bionluk/utils.py)

    A shallow embedding of the scheduling-and-routing engine of
    [bionluk/utils.py] and the properties its specification states.

    - Python integers are [Z]; the float coordinates of the outlet table
      are IEEE binary64 numbers ([PrimFloat.float]), which is what pandas
      and numpy hold.
    - A Python [dict] is an association list in insertion order
      ([Dict.t]): the export enumerates dictionaries, so their order is
      observable.
    - A raised exception is the [Raise] case of [result].
    - The process-wide random source is an oracle [rnd : nat -> nat]
      together with the number of draws made so far; every statement about
      the scheduler quantifies over all oracles.
    - [iterrows] hands the integer columns of a row over as binary64
      numbers; the scheduler is modelled on the integers, and a statement
      that compares identifiers or counts visits asks for a table whose
      integers binary64 holds exactly ([column_exact]). *)

From Stdlib Require Import ZArith List Bool Lia Permutation.
From Stdlib Require Import Floats.PrimFloat Floats.SpecFloat Floats.FloatAxioms.
From Stdlib Require String Ascii.
Import ListNotations.

Local Open Scope Z_scope.

(** ** Python runtime *)

(** The exceptions the engine can raise. *)
Inductive error : Type :=
| SchedulingInfeasible   (* ValueError("Cannot schedule more visits than available days.") *)
| EmptyRange             (* ValueError raised by random.randint on an empty range *)
| IndexError             (* list index out of range, random.choice of an empty sequence *)
| KeyError (label : Z)   (* missing dictionary key or index label *)
| IndexNotUnique.        (* to_dict('index') on a table whose index repeats *)

Inductive result (A : Type) : Type :=
| Ok (a : A)
| Raise (e : error).

Arguments Ok {A} a.
Arguments Raise {A} e.

Definition bind {A B : Type} (r : result A) (f : A -> result B) : result B :=
  match r with
  | Ok a => f a
  | Raise e => Raise e
  end.

Notation "x <- c1 ;; c2" := (bind c1 (fun x => c2))
  (at level 61, c1 at next level, right associativity).

(** [l[i]] on a Python list: negative indices count from the end. *)
Definition list_index {A : Type} (l : list A) (i : Z) : result A :=
  let n := Z.of_nat (length l) in
  let j := if i <? 0 then i + n else i in
  if (0 <=? j) && (j <? n) then
    match nth_error l (Z.to_nat j) with
    | Some a => Ok a
    | None => Raise IndexError
    end
  else Raise IndexError.

(** Dictionaries keyed by integers, in insertion order. *)
Module Dict.

Definition t (V : Type) : Type := list (Z * V).

Fixpoint get {V : Type} (k : Z) (d : t V) : option V :=
  match d with
  | [] => None
  | (k', v) :: d' => if k' =? k then Some v else get k d'
  end.

(** [d[k] = v]: an existing key keeps its place, a new key goes last. *)
Fixpoint set {V : Type} (k : Z) (v : V) (d : t V) : t V :=
  match d with
  | [] => [(k, v)]
  | (k', v') :: d' => if k' =? k then (k', v) :: d' else (k', v') :: set k v d'
  end.

Definition keys {V : Type} (d : t V) : list Z := map fst d.
Definition values {V : Type} (d : t V) : list V := map snd d.

(** [d[k]] on a plain dict. *)
Definition lookup {V : Type} (k : Z) (d : t V) : result V :=
  match get k d with
  | Some v => Ok v
  | None => Raise (KeyError k)
  end.

End Dict.

(** The random source: the [k]-th draw of the run is [rnd k]. *)
Section Random.

Variable rnd : nat -> nat.

(** [random.choice(seq)] as draw number [k]. *)
Definition choice {A : Type} (k : nat) (seq : list A) : result A :=
  match seq with
  | [] => Raise IndexError
  | _ :: _ =>
      match nth_error seq (rnd k mod length seq)%nat with
      | Some a => Ok a
      | None => Raise IndexError
      end
  end.

(** [random.randint(a, b)] as draw number [k]: uniform on [a..b],
    a [ValueError] when the range is empty. *)
Definition randint (k : nat) (a b : Z) : result Z :=
  if b <? a then Raise EmptyRange
  else Ok (a + Z.of_nat (rnd k) mod (b - a + 1)).

End Random.

(** ** Data model *)

(** One row of the outlet table. *)
Record outlet : Type := {
  OUTLET_ID : Z;
  LATITUDE : float;
  LONGITUDE : float;
  FREQUENCY : Z
}.

Definition coord : Type := (float * float)%type.

(** The depot is written [-1] in every route. *)
Definition DEPOT : Z := -1.

(** [DataFrame.iterrows] yields each row as one Series, whose values share
    one dtype: next to the float coordinates the integer columns arrive as
    binary64 numbers. An integer of magnitude up to 2^53 is a binary64
    number and arrives unchanged; a larger one can arrive rounded. *)
Definition exact_float64 (z : Z) : Prop :=
  - 9007199254740992 <= z <= 9007199254740992.

(** Every value of an integer column of the table arrives unchanged. *)
Definition column_exact (column : outlet -> Z) (data : list outlet) : Prop :=
  Forall (fun r => exact_float64 (column r)) data.

(** truck index -> assigned outlets, for one day *)
Definition day_schedule : Type := Dict.t (list Z).
(** day -> truck index -> assigned outlets *)
Definition weekly_schedule : Type := Dict.t day_schedule.

(** ** Weekly assignment scheduler
    ([create_weekly_schedule_with_dynamic_trucks]) *)

(** [range(5)] *)
Definition range5 : list Z := [0; 1; 2; 3; 4].

(** [{day: defaultdict(list) for day in range(5)}] *)
Definition empty_week : weekly_schedule := map (fun day => (day, [])) range5.

(** [available_days.discard(d)] on a set kept as a duplicate-free list. *)
Definition discard (d : Z) (s : list Z) : list Z :=
  filter (fun x => negb (x =? d)) s.

(** The list a [defaultdict(list)] yields for a key: [] when it is new. *)
Definition default_list (o : option (list Z)) : list Z :=
  match o with Some l => l | None => [] end.

(** [weekly_schedule[day][truck_id].append(retailer_id)] *)
Definition append_visit (ws : weekly_schedule) (day truck_id retailer_id : Z)
  : result weekly_schedule :=
  trucks <- Dict.lookup day ws ;;
  let retailers := default_list (Dict.get truck_id trucks) in
  Ok (Dict.set day (Dict.set truck_id (retailers ++ [retailer_id]) trucks) ws).

(** [data.sort_values(by='FREQUENCY', ascending=False)]: rows in
    decreasing frequency; rows of equal frequency keep their table order
    here (pandas leaves their order to the sorting kind, and nothing below
    depends on it). *)
Fixpoint insert_desc (r : outlet) (l : list outlet) : list outlet :=
  match l with
  | [] => [r]
  | x :: l' =>
      if FREQUENCY x <=? FREQUENCY r then r :: x :: l' else x :: insert_desc r l'
  end.

Definition sort_values_desc (data : list outlet) : list outlet :=
  fold_right insert_desc [] data.

Section Scheduler.

Variable rnd : nat -> nat.

(** The loop of [add_to_schedule]. [visits] is the number of times the
    body still runs: the loop [while frequency > 0: ...; frequency -= 1]
    runs it [Z.to_nat frequency] times unless it raises. [k] counts the
    draws made so far. *)
Fixpoint add_to_schedule_loop (visits : nat) (retailer_id : Z)
    (day_trucks : list Z) (available_days : list Z)
    (k : nat) (ws : weekly_schedule) : result (nat * weekly_schedule) :=
  match visits with
  | O => Ok (k, ws)
  | S visits' =>
      match available_days with
      | [] => Raise SchedulingInfeasible
      | _ :: _ =>
          day <- choice rnd k available_days ;;
          trucks <- list_index day_trucks day ;;
          truck_id <- randint rnd (S k) 0 (trucks - 1) ;;
          ws' <- append_visit ws day truck_id retailer_id ;;
          add_to_schedule_loop visits' retailer_id day_trucks
            (discard (day + 1) (discard (day - 1) available_days))
            (S (S k)) ws'
      end
  end.

Definition add_to_schedule (retailer_id frequency : Z) (day_trucks : list Z)
    (k : nat) (ws : weekly_schedule) : result (nat * weekly_schedule) :=
  add_to_schedule_loop (Z.to_nat frequency) retailer_id day_trucks range5 k ws.

(** [for _, row in sorted_retailers.iterrows(): add_to_schedule(...)].
    The identifier and the frequency are handed over as the table holds
    them, which is what the code does on a table that is [column_exact]
    in both columns. *)
Fixpoint schedule_rows (rows : list outlet) (day_trucks : list Z)
    (k : nat) (ws : weekly_schedule) : result (nat * weekly_schedule) :=
  match rows with
  | [] => Ok (k, ws)
  | row :: rows' =>
      st <- add_to_schedule (OUTLET_ID row) (FREQUENCY row) day_trucks k ws ;;
      schedule_rows rows' day_trucks (fst st) (snd st)
  end.

Definition create_weekly_schedule_with_dynamic_trucks
    (data : list outlet) (num_trucks_per_day : list Z) (k : nat)
  : result (nat * weekly_schedule) :=
  schedule_rows (sort_values_desc data) num_trucks_per_day k empty_week.

End Scheduler.

(** Observations on a weekly schedule. *)

(** [x] is in the list [l]. *)
Definition holds (x : Z) (l : list Z) : bool := existsb (Z.eqb x) l.

(** Number of times [x] occurs in [l]. *)
Definition zcount (x : Z) (l : list Z) : nat := count_occ Z.eq_dec l x.

(** Number of times [x] is assigned over the trucks of one day. *)
Definition trucks_count (x : Z) (trucks : day_schedule) : nat :=
  list_sum (map (zcount x) (Dict.values trucks)).

(** The trucks of day [d]. *)
Definition day_of (d : Z) (ws : weekly_schedule) : day_schedule :=
  match Dict.get d ws with
  | Some trucks => trucks
  | None => []
  end.

(** Number of times [x] is assigned on day [d]. *)
Definition day_count (x d : Z) (ws : weekly_schedule) : nat :=
  trucks_count x (day_of d ws).

(** Number of times [x] is assigned in the week: its occurrences in the
    assignment lists of all (day, truck) pairs. *)
Definition week_count (x : Z) (ws : weekly_schedule) : nat :=
  list_sum (map (trucks_count x) (Dict.values ws)).

(** [x] is among the assignments of day [d]. *)
Definition on_day (x d : Z) (ws : weekly_schedule) : bool :=
  existsb (holds x) (Dict.values (day_of d ws)).

(** Number of (day, truck) pairs whose assignment list holds [x]. *)
Definition cells_with (x : Z) (ws : weekly_schedule) : nat :=
  list_sum (map (fun trucks => length (filter (holds x) (Dict.values trucks)))
                (Dict.values ws)).

(** ** Daily route sequencer ([optimize_routes_for_a_day]) *)

(** The coordinate table: [LATITUDE] and [LONGITUDE] indexed by
    [OUTLET_ID], one row per outlet, in table order. *)
Definition table : Type := list (Z * coord).

(** [data.set_index('OUTLET_ID')[['LATITUDE', 'LONGITUDE']]] *)
Definition set_index (data : list outlet) : table :=
  map (fun r => (OUTLET_ID r, (LATITUDE r, LONGITUDE r))) data.

Definition has_label (label : Z) (row : Z * coord) : bool := fst row =? label.

(** [coordinates.loc[label] = value]: every row carrying the label is
    overwritten; when no row carries it, a row is added at the end. *)
Definition loc_set (label : Z) (value : coord) (t : table) : table :=
  if existsb (has_label label) t
  then map (fun row => if has_label label row then (fst row, value) else row) t
  else t ++ [(label, value)].

(** The rows of one label; a missing label is a [KeyError]. *)
Definition loc_label (label : Z) (t : table) : result (list coord) :=
  match filter (has_label label) t with
  | [] => Raise (KeyError label)
  | rows => Ok (map snd rows)
  end.

(** [coordinates.loc[labels]]: the rows of each label, in label order. *)
Fixpoint loc_list (labels : list Z) (t : table) : result (list coord) :=
  match labels with
  | [] => Ok []
  | label :: labels' =>
      rows <- loc_label label t ;;
      rest <- loc_list labels' t ;;
      Ok (rows ++ rest)
  end.

(** Euclidean distance of two rows, as [cdist] computes it in binary64. *)
Definition euclidean (u v : coord) : float :=
  let d0 := (fst u - fst v)%float in
  let d1 := (snd u - snd v)%float in
  PrimFloat.sqrt (d0 * d0 + d1 * d1)%float.

(** [cdist(xa, xb, metric='euclidean')] *)
Definition cdist (xa xb : list coord) : list (list float) :=
  map (fun u => map (euclidean u) xb) xa.

(** [distances[i, j]]; the sequencer only reads entries inside the matrix. *)
Definition entry (distances : list (list float)) (i j : nat) : float :=
  nth j (nth i distances []) nan.

(** [min(s, key=key)] continued from the candidate [best]: a later
    element replaces it only when its key is strictly smaller. *)
Fixpoint min_by (key : nat -> float) (best : nat) (rest : list nat) : nat :=
  match rest with
  | [] => best
  | x :: rest' =>
      if (key x <? key best)%float then min_by key x rest' else min_by key best rest'
  end.

(** The loop [while unvisited: ...]. The set [unvisited] is a
    duplicate-free list in increasing order; every turn removes one
    element, so [length unvisited] turns empty it. *)
Fixpoint visit_loop (turns : nat) (route_points : list Z)
    (distances : list (list float)) (current_location : nat)
    (unvisited : list nat) (optimized_route : list Z) : list Z :=
  match turns with
  | O => optimized_route
  | S turns' =>
      match unvisited with
      | [] => optimized_route
      | x :: rest =>
          let next_location :=
            min_by (fun y => entry distances current_location y) x rest in
          visit_loop turns' route_points distances next_location
            (remove Nat.eq_dec next_location unvisited)
            (optimized_route ++ [nth next_location route_points DEPOT])
      end
  end.

(** The body of the loop over trucks, for a truck with outlets. *)
Definition route_of_truck (coordinates : table) (retailers : list Z)
  : result (list Z) :=
  let route_points := [DEPOT] ++ retailers ++ [DEPOT] in
  route_coords <- loc_list route_points coordinates ;;
  let distances := cdist route_coords route_coords in
  let unvisited := seq 1 (length route_points - 2) in
  Ok (visit_loop (length unvisited) route_points distances 0 unvisited [DEPOT]
      ++ [DEPOT]).

(** [for truck_id, retailers in day_schedule.items(): ...] *)
Fixpoint route_trucks (coordinates : table) (items : day_schedule)
    (optimized_routes : Dict.t (list Z)) : result (Dict.t (list Z)) :=
  match items with
  | [] => Ok optimized_routes
  | (truck_id, retailers) :: items' =>
      match retailers with
      | [] => route_trucks coordinates items' optimized_routes
      | _ :: _ =>
          optimized_route <- route_of_truck coordinates retailers ;;
          route_trucks coordinates items'
            (Dict.set truck_id optimized_route optimized_routes)
      end
  end.

Definition optimize_routes_for_a_day (schedule : day_schedule)
    (data : list outlet) (depot_coordinates : coord)
  : result (Dict.t (list Z)) :=
  let coordinates := loc_set DEPOT depot_coordinates (set_index data) in
  route_trucks coordinates schedule [].

(** ** Weekly orchestrator ([optimize_delivery_routes]) *)

Definition route_plan : Type := Dict.t (Dict.t (list Z)).

Fixpoint route_days (days : list Z) (ws : weekly_schedule)
    (data : list outlet) (depot_coordinates : coord)
    (optimized_routes_weekly : route_plan) : result route_plan :=
  match days with
  | [] => Ok optimized_routes_weekly
  | day :: days' =>
      schedule <- Dict.lookup day ws ;;
      optimized_routes <- optimize_routes_for_a_day schedule data depot_coordinates ;;
      route_days days' ws data depot_coordinates
        (Dict.set day optimized_routes optimized_routes_weekly)
  end.

Definition optimize_delivery_routes (rnd : nat -> nat) (data : list outlet)
    (depot_coordinates : coord) (num_trucks_per_day : list Z) (k : nat)
  : result route_plan :=
  st <- create_weekly_schedule_with_dynamic_trucks rnd data num_trucks_per_day k ;;
  route_days range5 (snd st) data depot_coordinates [].

(** ** Coordinate projector ([transform_routes_to_coordinates]) *)

(** [(41.08919085025256, 29.04999926199514)], as binary64 numbers. *)
Definition DEPOT_COORDINATES : coord :=
  (0x1.48b6a9b1477f5p+5, 0x1.d0cccc06b17ep+4)%float.

Fixpoint nodupb (l : list Z) : bool :=
  match l with
  | [] => true
  | x :: l' => negb (existsb (Z.eqb x) l') && nodupb l'
  end.

(** [....to_dict('index')]: refused when the index repeats. *)
Definition to_dict_index (t : table) : result (Dict.t coord) :=
  if nodupb (map fst t) then Ok t else Raise IndexNotUnique.

(** One stop of a route as a coordinate pair. *)
Definition stop_coords (coordinates_dict : Dict.t coord) (retailer_id : Z)
  : result coord :=
  if negb (retailer_id =? -1) then Dict.lookup retailer_id coordinates_dict
  else Ok DEPOT_COORDINATES.

Fixpoint mapM {A B : Type} (f : A -> result B) (l : list A) : result (list B) :=
  match l with
  | [] => Ok []
  | a :: l' => b <- f a ;; bs <- mapM f l' ;; Ok (b :: bs)
  end.

Fixpoint transform_days (coordinates_dict : Dict.t coord)
    (items : route_plan) (routes_coordinates : Dict.t (list (list coord)))
  : result (Dict.t (list (list coord))) :=
  match items with
  | [] => Ok routes_coordinates
  | (day, trucks_routes) :: items' =>
      day_routes <- mapM (fun item => mapM (stop_coords coordinates_dict) (snd item))
                         trucks_routes ;;
      transform_days coordinates_dict items'
        (Dict.set day day_routes routes_coordinates)
  end.

Definition transform_routes_to_coordinates (optimized_routes : route_plan)
    (data : list outlet) : result (Dict.t (list (list coord))) :=
  coordinates_dict <- to_dict_index (set_index data) ;;
  transform_days coordinates_dict optimized_routes [].

(** ** Route export ([routes_to_dataframe]) *)

Record export_row : Type := {
  Day : Z;
  Truck_ID : Z;
  Step : Z;
  Latitude : float;
  Longitude : float
}.

(** [enumerate(l)], counting from [i]. *)
Fixpoint enumerate_from {A : Type} (i : Z) (l : list A) : list (Z * A) :=
  match l with
  | [] => []
  | a :: l' => (i, a) :: enumerate_from (i + 1) l'
  end.

Definition enumerate {A : Type} (l : list A) : list (Z * A) := enumerate_from 0 l.

Definition rows_of_route (day truck_id : Z) (route : list coord) : list export_row :=
  map (fun sc => {| Day := day + 1; Truck_ID := truck_id + 1; Step := fst sc + 1;
                    Latitude := fst (snd sc); Longitude := snd (snd sc) |})
      (enumerate route).

Definition rows_of_day (day : Z) (day_routes : list (list coord)) : list export_row :=
  flat_map (fun tr => rows_of_route day (fst tr) (snd tr)) (enumerate day_routes).

Definition routes_to_dataframe (transformed_routes : Dict.t (list (list coord)))
  : list export_row :=
  flat_map (fun item => rows_of_day (fst item) (snd item)) transformed_routes.

(** ** The greedy rule, as the specification words it

    Starting from the current position, the next stop is an unvisited
    index of the route-point list such that no unvisited index is strictly
    nearer; it leaves the unvisited set and becomes the current position,
    until nothing is left. [greedy pts dist c unv stops] says that [stops]
    is such a visiting order of [unv] from [c]. *)
Inductive greedy (route_points : list Z) (dist : nat -> nat -> float)
  : nat -> list nat -> list Z -> Prop :=
| greedy_done : forall c, greedy route_points dist c [] []
| greedy_step : forall c unvisited next stops,
    In next unvisited ->
    (forall x, In x unvisited -> (dist c x <? dist c next)%float = false) ->
    greedy route_points dist next (remove Nat.eq_dec next unvisited) stops ->
    greedy route_points dist c unvisited (nth next route_points DEPOT :: stops).

(** The coordinates an outlet has in the table: those of the first row
    that carries the identifier. *)
Definition own_coordinates (data : list outlet) (label : Z) : coord :=
  match find (fun r => OUTLET_ID r =? label) data with
  | Some r => (LATITUDE r, LONGITUDE r)
  | None => (nan, nan)
  end.

(** The place a route point stands for when -1 is read as the depot: the
    depot for the label -1, the outlet's own coordinates for any other
    label. *)
Definition point_coordinates (data : list outlet) (depot_coordinates : coord)
    (label : Z) : coord :=
  if label =? DEPOT then depot_coordinates else own_coordinates data label.

(** The Euclidean distance of the places of two entries of a route-point
    list. *)
Definition point_distance (data : list outlet) (depot_coordinates : coord)
    (route_points : list Z) (i j : nat) : float :=
  euclidean (point_coordinates data depot_coordinates (nth i route_points DEPOT))
            (point_coordinates data depot_coordinates (nth j route_points DEPOT)).

(** ** Worked examples: inputs *)

Definition mk_outlet (i : Z) (lat lon : float) (f : Z) : outlet :=
  {| OUTLET_ID := i; LATITUDE := lat; LONGITUDE := lon; FREQUENCY := f |}.

(** An oracle whose every draw is [n], and one that counts its draws. *)
Definition always (n : nat) : nat -> nat := fun _ => n.
Definition counting : nat -> nat := fun k => k.

Definition one_truck_a_day : list Z := [1; 1; 1; 1; 1].
Definition two_trucks_a_day : list Z := [2; 2; 2; 2; 2].
Definition no_truck_on_monday : list Z := [0; 1; 1; 1; 1].

(** One outlet to be visited four times, one to be visited twice. *)
Definition four_visits : list outlet := [mk_outlet 9 1 0 4].
Definition two_visits : list outlet := [mk_outlet 7 1 0 2].

(** Three outlets on the latitude axis, at 1, 2 and 3 from a depot at the
    origin, to be visited once, twice and three times. *)
Definition three_outlets : list outlet :=
  [mk_outlet 10 1 0 1; mk_outlet 20 2 0 2; mk_outlet 30 3 0 3].

Definition origin : coord := (0, 0)%float.

(** Outlets at 1, 2 and 3 from the depot, the second on the other side. *)
Definition both_sides : list outlet :=
  [mk_outlet 10 1 0 1; mk_outlet 20 (-2) 0 1; mk_outlet 30 3 0 1].

(** Outlets on one ray from a depot at (1, 2), at 5, 10 and 15 from it. *)
Definition ray_depot : coord := (1, 2)%float.
Definition ray_outlets : list outlet :=
  [mk_outlet 10 (-2) (-2) 1; mk_outlet 20 (-5) (-6) 1; mk_outlet 30 (-8) (-10) 1].

(** One outlet to be visited once. *)
Definition one_visit : list outlet := [mk_outlet 7 1 0 1].

(** The plan of [one_visit] with two trucks a day under [always 1]: the
    visit goes to day 1, truck 1. *)
Definition second_truck_plan : route_plan :=
  [(0, []); (1, [(1, [-1; 7; -1])]); (2, []); (3, []); (4, [])].

(** The day, truck and step columns of the export. *)
Definition index_columns (rows : list export_row) : list (Z * Z * Z) :=
  map (fun row => (Day row, Truck_ID row, Step row)) rows.

(** A table in which an outlet carries the identifier of the depot. *)
Definition outlet_named_depot : list outlet :=
  [mk_outlet (-1) 5 5 1; mk_outlet 10 1 0 1].

(** The schedule of [three_outlets] with two trucks a day under the
    oracle [counting], which makes twelve draws. *)
Definition counting_week : nat * weekly_schedule :=
  (12%nat, [(0, [(1, [30; 30; 10])]); (1, [(1, [20])]); (2, []);
            (3, [(1, [30])]); (4, [(1, [20])])]).

(** The schedule of [four_visits] with one truck a day under [always 2]. *)
Definition four_visits_week : nat * weekly_schedule :=
  (8%nat, [(0, []); (1, []); (2, [(0, [9])]); (3, []); (4, [(0, [9; 9; 9])])]).

(** The plan made from [counting_week] with the depot at the origin. *)
Definition counting_plan : route_plan :=
  [(0, [(1, [-1; 10; 30; 30; -1])]); (1, [(1, [-1; 20; -1])]); (2, []);
   (3, [(1, [-1; 30; -1])]); (4, [(1, [-1; 20; -1])])].

(** ** Observations on a weekly route plan *)

(** Number of times [x] is a stop in the routes of the plan. *)
Definition plan_count (x : Z) (plan : route_plan) : nat :=
  list_sum (map (trucks_count x) (Dict.values plan)).

(** [x] is a stop of some route of day [d]. *)
Definition plan_on_day (x d : Z) (plan : route_plan) : bool :=
  existsb (holds x) (Dict.values (day_of d plan)).

(** The days of the week on which [x] is assigned. *)
Definition days_of (x : Z) (ws : weekly_schedule) : list Z :=
  filter (fun d => on_day x d ws) range5.

(** The trucks of a day that have outlets to visit. *)
Definition loaded (schedule : day_schedule) : day_schedule :=
  filter (fun item => match snd item with [] => false | _ :: _ => true end) schedule.


(** ** Request validation (the trucks field of [optimize] in views.py) *)
Module Views.

(** The two [ValueError]s the view answers with instead of planning. *)
Inductive rejection : Type :=
| InvalidLiteral (field : String.string)   (* raised by int() on a field *)
| NotFiveNumbers.                          (* "Please enter exactly five numbers." *)

(** The character [','] (code 44). *)
Definition comma : Ascii.ascii := Ascii.ascii_of_nat 44.

(** [trucks_input.split(',')] *)
Fixpoint split_comma (s : String.string) : list String.string :=
  match s with
  | String.EmptyString => [String.EmptyString]
  | String.String c s' =>
      if Ascii.eqb c comma then String.EmptyString :: split_comma s'
      else match split_comma s' with
           | field :: fields => String.String c field :: fields
           | [] => [String.String c String.EmptyString]
           end
  end.

Section Trucks.

(** [int(x.strip())] on one field: the integer read, or nothing when
    [int] raises [ValueError]. The number syntax of Python is left open. *)
Variable int_strip : String.string -> option Z.

(** [[int(x.strip()) for x in fields]]: the first field that [int]
    refuses ends the comprehension. *)
Fixpoint read_fields (fields : list String.string) : list Z + rejection :=
  match fields with
  | [] => inl []
  | field :: fields' =>
      match int_strip field with
      | None => inr (InvalidLiteral field)
      | Some n =>
          match read_fields fields' with
          | inl ns => inl (n :: ns)
          | inr e => inr e
          end
      end
  end.

(** The [try] block: the list handed to [optimize_delivery_routes], or
    the [ValueError] answered to the caller. *)
Definition trucks_list (trucks_input : String.string) : list Z + rejection :=
  match read_fields (split_comma trucks_input) with
  | inl ns => if negb (length ns =? 5)%nat then inr NotFiveNumbers else inl ns
  | inr e => inr e
  end.

End Trucks.

End Views.

(** * Properties *)

(** ** Results and dictionaries *)

Lemma bind_ok {A B : Type} (r : result A) (f : A -> result B) (b : B) :
  bind r f = Ok b -> exists a, r = Ok a /\ f a = Ok b.
Proof.
  destruct r as [a|e]; simpl; intros H; [exists a; auto | discriminate].
Qed.

Ltac bind_inv H :=
  let a := fresh "a" in
  let Ha := fresh "Ha" in
  apply bind_ok in H; destruct H as [a [Ha H]].

(** The duplicate test is sound. *)
Lemma nodupb_NoDup (l : list Z) : nodupb l = true -> NoDup l.
Proof.
  induction l as [|x l IH]; simpl; intros H; constructor.
  - apply andb_true_iff in H. destruct H as [H _].
    apply negb_true_iff in H. intros Hin.
    assert (existsb (Z.eqb x) l = true); [|congruence].
    apply existsb_exists. exists x. split; auto. apply Z.eqb_refl.
  - apply IH. apply andb_true_iff in H. tauto.
Qed.

Module DictFacts.

Lemma get_set_eq {V : Type} (k : Z) (v : V) (d : Dict.t V) :
  Dict.get k (Dict.set k v d) = Some v.
Proof.
  induction d as [|[k' v'] d IH]; simpl.
  - now rewrite Z.eqb_refl.
  - destruct (k' =? k) eqn:E; simpl; rewrite E; auto.
Qed.

Lemma get_set_ne {V : Type} (k k' : Z) (v : V) (d : Dict.t V) :
  k <> k' -> Dict.get k' (Dict.set k v d) = Dict.get k' d.
Proof.
  intros Hne. induction d as [|[k0 v0] d IH]; simpl.
  - destruct (k =? k') eqn:E; auto. apply Z.eqb_eq in E. contradiction.
  - destruct (k0 =? k) eqn:E; simpl.
    + apply Z.eqb_eq in E. subst k0.
      destruct (k =? k') eqn:E'; auto. apply Z.eqb_eq in E'. contradiction.
    + now rewrite IH.
Qed.

Lemma In_get {V : Type} (k : Z) (v : V) (d : Dict.t V) :
  NoDup (Dict.keys d) -> In (k, v) d -> Dict.get k d = Some v.
Proof.
  induction d as [|[k' v'] d IH]; simpl; [contradiction|].
  intros Hnd [Heq|Hin].
  - inversion Heq. subst. now rewrite Z.eqb_refl.
  - inversion Hnd as [|? ? Hnot Hnd']. subst.
    destruct (k' =? k) eqn:E.
    + apply Z.eqb_eq in E. subst k'. exfalso. apply Hnot.
      change k with (fst (k, v)). now apply in_map.
    + now apply IH.
Qed.

End DictFacts.

(** ** Scheduler: what one appended visit changes *)

Lemma choice_In {A : Type} (rnd : nat -> nat) (k : nat) (s : list A) (a : A) :
  choice rnd k s = Ok a -> In a s.
Proof.
  unfold choice. destruct s as [|x s']; [discriminate|].
  destruct (nth_error (x :: s') (rnd k mod length (x :: s'))) eqn:E; [|discriminate].
  intros H. inversion H. subst. eapply nth_error_In; eauto.
Qed.

Lemma choice_ok {A : Type} (rnd : nat -> nat) (k : nat) (s : list A) :
  s <> [] -> exists a, choice rnd k s = Ok a.
Proof.
  intros Hs. unfold choice. destruct s as [|x s']; [contradiction|].
  destruct (nth_error (x :: s') (rnd k mod length (x :: s'))) eqn:E.
  - eauto.
  - apply nth_error_None in E.
    pose proof (Nat.mod_upper_bound (rnd k) (length (x :: s'))) as Hb.
    simpl in *. lia.
Qed.

Lemma In_discard (d x : Z) (s : list Z) :
  In x (discard d s) <-> In x s /\ x <> d.
Proof.
  unfold discard. rewrite filter_In. rewrite negb_true_iff, Z.eqb_neq. tauto.
Qed.

(** The picked day stays a candidate: only its neighbours are discarded. *)
Lemma picked_day_stays (day : Z) (available_days : list Z) :
  In day available_days ->
  In day (discard (day + 1) (discard (day - 1) available_days)).
Proof.
  intros H. rewrite !In_discard. repeat split; auto; lia.
Qed.

Lemma holds_app (x : Z) (l1 l2 : list Z) :
  holds x (l1 ++ l2) = holds x l1 || holds x l2.
Proof. apply existsb_app. Qed.

Lemma zcount_app (x : Z) (l1 l2 : list Z) :
  zcount x (l1 ++ l2) = (zcount x l1 + zcount x l2)%nat.
Proof. apply count_occ_app. Qed.

Lemma trucks_count_append (x y t : Z) (trucks : day_schedule) :
  trucks_count x (Dict.set t (default_list (Dict.get t trucks) ++ [y]) trucks)
  = (trucks_count x trucks + zcount x [y])%nat.
Proof.
  unfold trucks_count, Dict.values, list_sum.
  induction trucks as [|[t' l'] trucks IH]; cbn -[zcount].
  - lia.
  - destruct (t' =? t) eqn:E; cbn -[zcount].
    + rewrite zcount_app. lia.
    + rewrite IH. lia.
Qed.

Lemma trucks_holds_append (x y t : Z) (trucks : day_schedule) :
  existsb (holds x) (Dict.values (Dict.set t (default_list (Dict.get t trucks) ++ [y]) trucks))
  = existsb (holds x) (Dict.values trucks) || (x =? y).
Proof.
  unfold Dict.values.
  induction trucks as [|[t' l'] trucks IH]; simpl.
  - now rewrite !orb_false_r.
  - destruct (t' =? t) eqn:E; simpl.
    + rewrite holds_app. simpl. rewrite orb_false_r.
      destruct (holds x l'), (x =? y), (existsb (holds x) (map snd trucks)); reflexivity.
    + rewrite IH. now rewrite orb_assoc.
Qed.

Lemma lookup_get {V : Type} (k : Z) (d : Dict.t V) (v : V) :
  Dict.lookup k d = Ok v -> Dict.get k d = Some v.
Proof.
  unfold Dict.lookup. destruct (Dict.get k d); intros H; inversion H; auto.
Qed.

Lemma append_visit_on_day ws day t y ws' :
  append_visit ws day t y = Ok ws' ->
  forall x d, on_day x d ws' = on_day x d ws || ((d =? day) && (x =? y)).
Proof.
  unfold append_visit. intros H. bind_inv H. inversion H. subst ws'. clear H.
  apply lookup_get in Ha. intros x d. unfold on_day, day_of.
  destruct (d =? day) eqn:E.
  - apply Z.eqb_eq in E. subst d.
    rewrite DictFacts.get_set_eq, Ha, trucks_holds_append. reflexivity.
  - apply Z.eqb_neq in E. rewrite DictFacts.get_set_ne by congruence.
    simpl. now rewrite orb_false_r.
Qed.

Lemma sum_values_set {V : Type} (f : V -> nat) (k : Z) (v v' : V) (d : Dict.t V) :
  Dict.get k d = Some v ->
  (list_sum (map f (Dict.values (Dict.set k v' d))) + f v
   = list_sum (map f (Dict.values d)) + f v')%nat.
Proof.
  unfold Dict.values, list_sum.
  induction d as [|[k0 v0] d IH]; simpl; [discriminate|].
  destruct (k0 =? k) eqn:E; simpl.
  - intros H. inversion H. subst. lia.
  - intros H. specialize (IH H). lia.
Qed.

Lemma append_visit_week_count ws day t y ws' :
  append_visit ws day t y = Ok ws' ->
  forall x, week_count x ws' = (week_count x ws + zcount x [y])%nat.
Proof.
  unfold append_visit. intros H. bind_inv H. inversion H. subst ws'. clear H.
  apply lookup_get in Ha. intros x. unfold week_count.
  pose proof (sum_values_set (trucks_count x) day a
                (Dict.set t (default_list (Dict.get t a) ++ [y]) a) ws Ha) as Hs.
  rewrite trucks_count_append in Hs.
  apply (proj1 (Nat.add_cancel_r _ _ (trucks_count x a))).
  etransitivity; [exact Hs | lia].
Qed.

(** ** Scheduler: the candidate set is never empty *)

Section SchedulerFacts.

Variable rnd : nat -> nat.

Lemma loop_never_infeasible visits retailer_id day_trucks :
  forall available_days k ws,
    available_days <> [] ->
    add_to_schedule_loop rnd visits retailer_id day_trucks available_days k ws
    <> Raise SchedulingInfeasible.
Proof.
  induction visits as [|n IH]; intros av k ws Hne; [simpl; discriminate|].
  destruct av as [|d0 av']; [contradiction|].
  cbn [add_to_schedule_loop].
  destruct (choice rnd k (d0 :: av')) as [day|e] eqn:Hc; cbn [bind].
  2:{ unfold choice in Hc.
      destruct (nth_error (d0 :: av') (rnd k mod length (d0 :: av'))); inversion Hc.
      discriminate. }
  destruct (list_index day_trucks day) as [trucks|e] eqn:Hi; cbn [bind].
  2:{ unfold list_index in Hi.
      destruct ((0 <=? _) && _); [destruct (nth_error _ _)|]; inversion Hi; discriminate. }
  destruct (randint rnd (S k) 0 (trucks - 1)) as [truck|e] eqn:Hr; cbn [bind].
  2:{ unfold randint in Hr. destruct (trucks - 1 <? 0); inversion Hr. discriminate. }
  destruct (append_visit ws day truck retailer_id) as [ws'|e] eqn:Ha; cbn [bind].
  2:{ unfold append_visit, Dict.lookup in Ha.
      destruct (Dict.get day ws); simpl in Ha; inversion Ha. discriminate. }
  apply IH. apply choice_In in Hc.
  pose proof (picked_day_stays day _ Hc) as Hin.
  intros Hnil. rewrite Hnil in Hin. contradiction.
Qed.

Lemma add_to_schedule_never_infeasible retailer_id frequency day_trucks k ws :
  add_to_schedule rnd retailer_id frequency day_trucks k ws
  <> Raise SchedulingInfeasible.
Proof. apply loop_never_infeasible. discriminate. Qed.

Lemma schedule_rows_never_infeasible rows day_trucks :
  forall k ws, schedule_rows rnd rows day_trucks k ws <> Raise SchedulingInfeasible.
Proof.
  induction rows as [|row rows IH]; intros k ws; simpl; [discriminate|].
  destruct (add_to_schedule rnd (OUTLET_ID row) (FREQUENCY row) day_trucks k ws)
    as [st|e] eqn:Ha; simpl.
  - apply IH.
  - intros H. inversion H. subst e.
    now apply add_to_schedule_never_infeasible in Ha.
Qed.

(** One turn of the loop, read backwards from a successful run. *)
Lemma loop_step_inv n retailer_id day_trucks available_days k ws st :
  add_to_schedule_loop rnd (S n) retailer_id day_trucks available_days k ws = Ok st ->
  exists day trucks truck_id ws1,
    In day available_days /\
    choice rnd k available_days = Ok day /\
    list_index day_trucks day = Ok trucks /\
    randint rnd (S k) 0 (trucks - 1) = Ok truck_id /\
    append_visit ws day truck_id retailer_id = Ok ws1 /\
    add_to_schedule_loop rnd n retailer_id day_trucks
      (discard (day + 1) (discard (day - 1) available_days)) (S (S k)) ws1 = Ok st.
Proof.
  cbn [add_to_schedule_loop].
  destruct available_days as [|d0 av']; [discriminate|].
  intros H.
  apply bind_ok in H. destruct H as [day [Hc H]].
  apply bind_ok in H. destruct H as [trucks [Hi H]].
  apply bind_ok in H. destruct H as [truck [Hr H]].
  apply bind_ok in H. destruct H as [ws1 [Ha H]].
  exists day, trucks, truck, ws1. repeat split; auto.
  eapply choice_In; eauto.
Qed.

Lemma zcount_single (x y : Z) : zcount x [y] = if x =? y then 1%nat else 0%nat.
Proof.
  unfold zcount. simpl. destruct (Z.eq_dec y x) as [e|e].
  - subst. now rewrite Z.eqb_refl.
  - destruct (x =? y) eqn:E; auto. apply Z.eqb_eq in E. congruence.
Qed.

(** A successful run for one outlet appends its identifier once per
    turn and nothing else. *)
Lemma loop_week_count n retailer_id day_trucks :
  forall available_days k ws st,
    add_to_schedule_loop rnd n retailer_id day_trucks available_days k ws = Ok st ->
    forall x, week_count x (snd st)
              = (week_count x ws + if (x =? retailer_id)%Z then n else 0)%nat.
Proof.
  induction n as [|n IH]; intros av k ws st H x.
  - simpl in H. inversion H. simpl. destruct (x =? retailer_id); lia.
  - apply loop_step_inv in H.
    destruct H as (day & trucks & truck & ws1 & _ & _ & _ & _ & Ha & Hl).
    rewrite (IH _ _ _ _ Hl x), (append_visit_week_count _ _ _ _ _ Ha x), zcount_single.
    destruct (x =? retailer_id); lia.
Qed.

(** No picked day is next to another one: neighbours of a used day are
    never candidates again, and a candidate is never next to a used day. *)
Lemma loop_on_day n retailer_id day_trucks :
  forall available_days k ws st,
    (forall d, on_day retailer_id d ws = true ->
               ~ In (d - 1) available_days /\ ~ In (d + 1) available_days) ->
    (forall d, on_day retailer_id d ws = true -> on_day retailer_id (d + 1) ws = false) ->
    add_to_schedule_loop rnd n retailer_id day_trucks available_days k ws = Ok st ->
    (forall d, on_day retailer_id d (snd st) = true ->
               on_day retailer_id (d + 1) (snd st) = false) /\
    (forall x d, x <> retailer_id -> on_day x d (snd st) = on_day x d ws).
Proof.
  induction n as [|n IH]; intros av k ws st Hav Hadj H.
  - simpl in H. inversion H. simpl. split; auto.
  - apply loop_step_inv in H.
    destruct H as (day & trucks & truck & ws1 & Hin & _ & _ & _ & Ha & Hl).
    pose proof (append_visit_on_day _ _ _ _ _ Ha) as Hon.
    assert (Hself : forall d, on_day retailer_id d ws1
                              = on_day retailer_id d ws || (d =? day)).
    { intros d. rewrite Hon, Z.eqb_refl. now rewrite andb_true_r. }
    apply IH in Hl.
    + destruct Hl as [Hadj' Hother]. split; auto.
      intros x d Hx. rewrite Hother by assumption. rewrite Hon.
      destruct (x =? retailer_id) eqn:E; [apply Z.eqb_eq in E; contradiction|].
      now rewrite andb_false_r, orb_false_r.
    + intros d Hd. rewrite Hself in Hd. rewrite !In_discard.
      apply orb_true_iff in Hd. destruct Hd as [Hd|Hd].
      * destruct (Hav d Hd). tauto.
      * apply Z.eqb_eq in Hd. subst d. split; intros [[_ ?] ?]; lia.
    + intros d Hd. rewrite Hself in Hd. rewrite Hself.
      apply orb_true_iff in Hd. apply orb_false_iff.
      destruct Hd as [Hd|Hd].
      * split; [now apply Hadj|].
        apply Z.eqb_neq. intros Heq. destruct (Hav d Hd) as [_ Hn].
        apply Hn. now rewrite Heq.
      * apply Z.eqb_eq in Hd. subst d. split.
        -- destruct (on_day retailer_id (day + 1) ws) eqn:E; auto.
           destruct (Hav _ E) as [Hn _]. exfalso. apply Hn.
           now replace (day + 1 - 1) with day by lia.
        -- apply Z.eqb_neq. lia.
Qed.

(** *** The whole table *)

Lemma schedule_rows_week_count rows day_trucks :
  forall k ws st,
    NoDup (map OUTLET_ID rows) ->
    schedule_rows rnd rows day_trucks k ws = Ok st ->
    (forall r, In r rows ->
               week_count (OUTLET_ID r) (snd st)
               = (week_count (OUTLET_ID r) ws + Z.to_nat (FREQUENCY r))%nat) /\
    (forall x, ~ In x (map OUTLET_ID rows) -> week_count x (snd st) = week_count x ws).
Proof.
  induction rows as [|row rows IH]; intros k ws st Hnd H.
  - simpl in H. inversion H. simpl. split; [contradiction | auto].
  - simpl in H. apply bind_ok in H. destruct H as [st1 [Ha Hr]].
    inversion Hnd as [|? ? Hnot Hnd']. subst.
    pose proof (loop_week_count _ _ _ _ _ _ _ Ha) as Hone.
    destruct (IH _ _ _ Hnd' Hr) as [Hin Hout]. split.
    + intros r [Heq|Hr'].
      * subst r. rewrite (Hout _ Hnot), Hone, Z.eqb_refl. reflexivity.
      * rewrite (Hin r Hr'), Hone.
        destruct (OUTLET_ID r =? OUTLET_ID row) eqn:E; [|lia].
        apply Z.eqb_eq in E. exfalso. apply Hnot. rewrite <- E. now apply in_map.
    + intros x Hx. simpl in Hx.
      rewrite Hout by tauto. rewrite Hone.
      destruct (x =? OUTLET_ID row) eqn:E; [|lia].
      apply Z.eqb_eq in E. exfalso. apply Hx. now left.
Qed.

Lemma schedule_rows_on_day rows day_trucks :
  forall k ws st,
    NoDup (map OUTLET_ID rows) ->
    (forall r d, In r rows -> on_day (OUTLET_ID r) d ws = false) ->
    (forall x d, on_day x d ws = true -> on_day x (d + 1) ws = false) ->
    schedule_rows rnd rows day_trucks k ws = Ok st ->
    forall x d, on_day x d (snd st) = true -> on_day x (d + 1) (snd st) = false.
Proof.
  induction rows as [|row rows IH]; intros k ws st Hnd Hfresh Hadj H.
  - simpl in H. inversion H. simpl. auto.
  - simpl in H. apply bind_ok in H. destruct H as [st1 [Ha Hr]].
    inversion Hnd as [|? ? Hnot Hnd']. subst.
    unfold add_to_schedule in Ha. apply loop_on_day in Ha.
    + destruct Ha as [Hadj1 Hother].
      refine (IH _ _ _ Hnd' _ _ Hr).
      * intros r d Hr'. rewrite Hother.
        -- apply Hfresh. now right.
        -- intros Heq. apply Hnot. rewrite <- Heq. now apply in_map.
      * intros x d Hx.
        destruct (Z.eq_dec x (OUTLET_ID row)) as [->|Hne]; [now apply Hadj1|].
        rewrite Hother in * by assumption. now apply Hadj.
    + intros d Hd. rewrite Hfresh in Hd by now left. discriminate.
    + intros d Hd. rewrite Hfresh in Hd by now left. discriminate.
Qed.

Lemma sort_values_desc_perm (data : list outlet) :
  Permutation (sort_values_desc data) data.
Proof.
  assert (Hins : forall r l, Permutation (insert_desc r l) (r :: l)).
  { intros r l. induction l as [|x l IH]; cbn [insert_desc]; auto.
    destruct (FREQUENCY x <=? FREQUENCY r); auto.
    rewrite IH. apply perm_swap. }
  induction data as [|r data IH]; simpl; auto.
  rewrite Hins. now constructor.
Qed.

Lemma on_day_empty_week (x d : Z) : on_day x d empty_week = false.
Proof.
  unfold on_day, day_of, empty_week, range5. cbn [map Dict.get].
  repeat (match goal with |- context [?a =? d] => destruct (a =? d) end;
          [reflexivity|]).
  reflexivity.
Qed.

Lemma week_count_empty_week (x : Z) : week_count x empty_week = 0%nat.
Proof. reflexivity. Qed.

End SchedulerFacts.

(** ** Scheduler: the claims *)

(** C1, evaluated on the code. An outlet needs four visits and the first
    pick is Wednesday, which leaves Monday, Wednesday and Friday: three
    usable days for four visits. The run does not raise
    [SchedulingInfeasible]: it returns a schedule with one visit on
    Wednesday and three on Friday. No run raises it, whatever the table,
    the truck counts and the draws. *)
Theorem four_visits_not_refused :
  create_weekly_schedule_with_dynamic_trucks (always 2) four_visits one_truck_a_day 0
  = Ok (8%nat, [(0, []); (1, []); (2, [(0, [9])]); (3, []); (4, [(0, [9; 9; 9])])])
  /\ forall rnd data num_trucks_per_day k,
       create_weekly_schedule_with_dynamic_trucks rnd data num_trucks_per_day k
       <> Raise SchedulingInfeasible.
Proof.
  split; [reflexivity|].
  intros rnd data num_trucks_per_day k. apply schedule_rows_never_infeasible.
Qed.

(** C2, evaluated on the code. The picked day is not removed from the
    candidate set: an outlet needing two visits gets both on Monday. *)
Theorem same_day_twice :
  create_weekly_schedule_with_dynamic_trucks (always 0) two_visits one_truck_a_day 0
  = Ok (4%nat, [(0, [(0, [7; 7])]); (1, []); (2, []); (3, []); (4, [])])
  /\ discard (0 + 1) (discard (0 - 1) range5) = [0; 2; 3; 4]
  /\ day_count 7 0 [(0, [(0, [7; 7])]); (1, []); (2, []); (3, []); (4, [])] = 2%nat.
Proof. repeat split. Qed.

(** An assignment list that holds [x] has an occurrence of it, so there
    are never more lists holding [x] than occurrences of [x]. *)
Lemma holds_occurs (x : Z) (l : list Z) :
  holds x l = true -> (1 <= zcount x l)%nat.
Proof.
  unfold holds, zcount. induction l as [|a l IH]; simpl; [discriminate|].
  destruct (Z.eq_dec a x) as [_|Hne]; [lia|].
  destruct (x =? a) eqn:E; [apply Z.eqb_eq in E; congruence|]. exact IH.
Qed.

Lemma cells_le_week_count (x : Z) (ws : weekly_schedule) :
  (cells_with x ws <= week_count x ws)%nat.
Proof.
  unfold cells_with, week_count, trucks_count.
  induction (Dict.values ws) as [|trucks days IH]; simpl; [lia|].
  apply Nat.add_le_mono; [|exact IH].
  induction (Dict.values trucks) as [|l ls IHl]; simpl; [lia|].
  destruct (holds x l) eqn:E; simpl.
  - apply holds_occurs in E. lia.
  - lia.
Qed.

(** C3, evaluated on the code. An outlet that needs two visits gets both
    in the list of one truck on Monday: its identifier is in one (day,
    truck) assignment list of the returned schedule, not in two. The two
    visits are there as two occurrences in that one list. *)
Theorem fewer_entries_than_visits :
  create_weekly_schedule_with_dynamic_trucks (always 0) two_visits one_truck_a_day 0
  = Ok (4%nat, [(0, [(0, [7; 7])]); (1, []); (2, []); (3, []); (4, [])])
  /\ map OUTLET_ID two_visits = [7]
  /\ map FREQUENCY two_visits = [2]
  /\ cells_with 7 [(0, [(0, [7; 7])]); (1, []); (2, []); (3, []); (4, [])] = 1%nat
  /\ week_count 7 [(0, [(0, [7; 7])]); (1, []); (2, []); (3, []); (4, [])] = 2%nat.
Proof. repeat split. Qed.

(** X27. In every schedule the scheduler returns, each outlet's identifier
    occurs in the assignment lists exactly as many times as its required
    frequency, and the number of (day, truck) assignment lists that hold
    it is at most that frequency. Identifiers are unique, frequencies are
    not negative, and both columns hold integers that binary64 holds. *)
Theorem visits_equal_frequency (rnd : nat -> nat) (data : list outlet)
    (num_trucks_per_day : list Z) (k : nat) (st : nat * weekly_schedule) :
  NoDup (map OUTLET_ID data) ->
  column_exact OUTLET_ID data ->
  column_exact FREQUENCY data ->
  create_weekly_schedule_with_dynamic_trucks rnd data num_trucks_per_day k = Ok st ->
  forall r, In r data -> 0 <= FREQUENCY r ->
            Z.of_nat (week_count (OUTLET_ID r) (snd st)) = FREQUENCY r
            /\ Z.of_nat (cells_with (OUTLET_ID r) (snd st)) <= FREQUENCY r.
Proof.
  intros Hnd _ _ H r Hr Hf.
  assert (Hw : Z.of_nat (week_count (OUTLET_ID r) (snd st)) = FREQUENCY r).
  { unfold create_weekly_schedule_with_dynamic_trucks in H.
    pose proof (sort_values_desc_perm data) as Hp.
    apply schedule_rows_week_count in H.
    - destruct H as [Hin _]. rewrite Hin.
      + rewrite week_count_empty_week. simpl. now apply Z2Nat.id.
      + eapply Permutation_in; [symmetry; exact Hp | exact Hr].
    - eapply Permutation_NoDup; [|exact Hnd].
      apply Permutation_map. now symmetry. }
  split; [exact Hw|].
  pose proof (cells_le_week_count (OUTLET_ID r) (snd st)). lia.
Qed.

Lemma three_outlets_unique : NoDup (map OUTLET_ID three_outlets).
Proof. apply nodupb_NoDup. reflexivity. Defined.

Lemma three_outlets_exact :
  column_exact OUTLET_ID three_outlets /\ column_exact FREQUENCY three_outlets.
Proof.
  split; repeat (apply Forall_cons || apply Forall_nil);
    unfold exact_float64; simpl; lia.
Defined.

Lemma visits_equal_frequency_witness :
  create_weekly_schedule_with_dynamic_trucks counting three_outlets two_trucks_a_day 0
  = Ok counting_week
  /\ Z.of_nat (week_count 30 (snd counting_week)) = 3
  /\ Z.of_nat (cells_with 30 (snd counting_week)) <= 3.
Proof.
  split; [reflexivity|].
  apply (visits_equal_frequency counting three_outlets two_trucks_a_day 0
           counting_week three_outlets_unique
           (proj1 three_outlets_exact) (proj2 three_outlets_exact)
           eq_refl (mk_outlet 30 3 0 3)).
  - simpl. auto.
  - simpl. lia.
Defined.

(** C4. In every schedule the scheduler returns, no outlet identifier is
    among the assignments of two consecutive days [d] and [d + 1]; this
    covers d = 0..3, and days 0 and 4 are not consecutive. Identifiers
    are unique and are integers that binary64 holds, so that two outlets
    are never assigned under one identifier. *)
Theorem no_adjacent_days (rnd : nat -> nat) (data : list outlet)
    (num_trucks_per_day : list Z) (k : nat) (st : nat * weekly_schedule) :
  NoDup (map OUTLET_ID data) ->
  column_exact OUTLET_ID data ->
  create_weekly_schedule_with_dynamic_trucks rnd data num_trucks_per_day k = Ok st ->
  forall x d, on_day x d (snd st) && on_day x (d + 1) (snd st) = false.
Proof.
  intros Hnd _ H x d. unfold create_weekly_schedule_with_dynamic_trucks in H.
  pose proof (sort_values_desc_perm data) as Hp.
  destruct (on_day x d (snd st)) eqn:E; [|reflexivity]. simpl.
  revert E. eapply schedule_rows_on_day; [ | | | exact H].
  - eapply Permutation_NoDup; [|exact Hnd].
    apply Permutation_map. now symmetry.
  - intros. apply on_day_empty_week.
  - intros y e Hy. rewrite on_day_empty_week in Hy. discriminate.
Qed.

Lemma no_adjacent_days_witness :
  on_day 30 0 (snd counting_week) = true
  /\ on_day 30 0 (snd counting_week) && on_day 30 (0 + 1) (snd counting_week) = false.
Proof.
  split; [reflexivity|].
  apply (no_adjacent_days counting three_outlets two_trucks_a_day 0
           counting_week three_outlets_unique (proj1 three_outlets_exact) eq_refl).
Defined.

(** [random.randint(0, trucks - 1)] without trucks. *)
Lemma randint_no_trucks (rnd : nat -> nat) (k : nat) (trucks : Z) :
  trucks <= 0 -> randint rnd k 0 (trucks - 1) = Raise EmptyRange.
Proof.
  intros Ht. unfold randint.
  replace (trucks - 1 <? 0) with true by (symmetry; apply Z.ltb_lt; lia).
  reflexivity.
Qed.

(** C9. When the day picked for an outlet that still needs a visit has
    no truck (a count of zero or less), drawing the truck index fails:
    the run raises the error of [random.randint] on an empty range and
    returns no schedule. *)
Theorem no_truck_on_picked_day (rnd : nat -> nat) (visits : nat) (retailer_id : Z)
    (day_trucks available_days : list Z) (k : nat) (ws : weekly_schedule)
    (day trucks : Z) :
  choice rnd k available_days = Ok day ->
  list_index day_trucks day = Ok trucks ->
  trucks <= 0 ->
  add_to_schedule_loop rnd (S visits) retailer_id day_trucks available_days k ws
  = Raise EmptyRange.
Proof.
  intros Hc Hi Ht. cbn [add_to_schedule_loop].
  destruct available_days as [|d0 av']; [discriminate|].
  rewrite Hc. cbn [bind]. rewrite Hi. cbn [bind].
  rewrite randint_no_trucks by assumption. reflexivity.
Qed.

Lemma no_truck_on_picked_day_witness :
  add_to_schedule_loop (always 0) 1 7 no_truck_on_monday range5 0 empty_week
  = Raise EmptyRange
  /\ create_weekly_schedule_with_dynamic_trucks (always 0) two_visits no_truck_on_monday 0
     = Raise EmptyRange.
Proof.
  split; [|reflexivity].
  apply (no_truck_on_picked_day (always 0) 0 7 no_truck_on_monday range5 0 empty_week 0 0).
  - reflexivity.
  - reflexivity.
  - lia.
Defined.

(** X26. A run propagates the failure: with no truck on any of the five
    days and some outlet to visit, no oracle yields a schedule. *)
Lemma no_trucks_no_schedule (rnd : nat -> nat) (data : list outlet)
    (num_trucks_per_day : list Z) (k : nat) :
  length num_trucks_per_day = 5%nat ->
  Forall (fun t => t <= 0) num_trucks_per_day ->
  Exists (fun r => 0 < FREQUENCY r) data ->
  create_weekly_schedule_with_dynamic_trucks rnd data num_trucks_per_day k
  = Raise EmptyRange.
Proof.
  intros Hlen Hall Hex. unfold create_weekly_schedule_with_dynamic_trucks.
  assert (Hex' : Exists (fun r => 0 < FREQUENCY r) (sort_values_desc data)).
  { apply Exists_exists in Hex. destruct Hex as [r [Hr Hf]].
    apply Exists_exists. exists r. split; auto.
    eapply Permutation_in; [symmetry; apply sort_values_desc_perm | exact Hr]. }
  clear Hex. generalize empty_week as ws. revert k.
  induction (sort_values_desc data) as [|row rows IH]; intros k ws.
  - inversion Hex'.
  - cbn [schedule_rows]. unfold add_to_schedule.
    destruct (Z.to_nat (FREQUENCY row)) as [|n] eqn:En.
    + cbn [add_to_schedule_loop bind fst snd]. apply IH.
      inversion Hex' as [? ? Hf|]; subst; auto. lia.
    + destruct (choice_ok rnd k range5 ltac:(discriminate)) as [day Hc].
      pose proof (choice_In _ _ _ _ Hc) as Hin.
      assert (Hi : exists trucks, list_index num_trucks_per_day day = Ok trucks /\ trucks <= 0).
      { destruct num_trucks_per_day as [|t0 [|t1 [|t2 [|t3 [|t4 [|? ?]]]]]]; try discriminate.
        repeat match goal with H : Forall _ (_ :: _) |- _ => inversion H; clear H; subst end.
        simpl in Hin.
        destruct Hin as [<-|[<-|[<-|[<-|[<-|[]]]]]]; eexists; (split; [reflexivity | assumption]). }
      destruct Hi as [trucks [Hi Ht]].
      cbn [add_to_schedule_loop]. unfold range5 at 1.
      fold range5. rewrite Hc. cbn [bind]. rewrite Hi. cbn [bind].
      rewrite randint_no_trucks by assumption. reflexivity.
Qed.

(** ** Sequencer: binary64 comparison is a strict order *)

Lemma SFltb_irrefl (a : spec_float) : SFltb a a = false.
Proof.
  unfold SFltb. destruct a as [s|s| |s m e]; simpl; try reflexivity.
  - now destruct s.
  - destruct s; rewrite Z.compare_refl;
      change (Pos.compare_cont Eq m m) with (Pos.compare m m);
      rewrite Pos.compare_refl; reflexivity.
Qed.

Lemma SFltb_trans (a b c : spec_float) :
  SFltb a b = true -> SFltb b c = true -> SFltb a c = true.
Proof.
  unfold SFltb.
  destruct a as [sa|sa| |sa ma ea], b as [sb|sb| |sb mb eb], c as [sc|sc| |sc mc ec];
    simpl; try discriminate; try reflexivity;
    repeat match goal with s : bool |- _ => destruct s end;
    simpl; try discriminate; try reflexivity;
    change (Pos.compare_cont Eq) with Pos.compare;
    destruct (Z.compare_spec ea eb), (Z.compare_spec eb ec), (Z.compare_spec ea ec);
    simpl; try discriminate; try reflexivity; try lia; subst;
    destruct (Pos.compare_spec ma mb), (Pos.compare_spec mb mc), (Pos.compare_spec ma mc);
    simpl; try discriminate; try reflexivity; try lia.
Qed.

Lemma ltb_irrefl (x : float) : (x <? x)%float = false.
Proof. rewrite ltb_spec. apply SFltb_irrefl. Qed.

Lemma ltb_trans (x y z : float) :
  (x <? y)%float = true -> (y <? z)%float = true -> (x <? z)%float = true.
Proof. rewrite !ltb_spec. apply SFltb_trans. Qed.

Lemma ltb_asym (x y : float) : (x <? y)%float = true -> (y <? x)%float = false.
Proof.
  intros H. destruct (y <? x)%float eqn:E; auto.
  pose proof (ltb_trans _ _ _ H E) as Hxx. now rewrite ltb_irrefl in Hxx.
Qed.

(** ** Sequencer: [min] returns a nearest candidate *)

Section MinBy.

Variable key : nat -> float.

Lemma min_by_In (rest : list nat) :
  forall best, In (min_by key best rest) (best :: rest).
Proof.
  induction rest as [|x rest IH]; intros best; simpl.
  - now left.
  - destruct (key x <? key best)%float.
    + right. apply IH.
    + destruct (IH best) as [H|H]; [now left | now right; right].
Qed.

Lemma min_by_below (rest : list nat) :
  forall best,
    min_by key best rest = best \/
    (key (min_by key best rest) <? key best)%float = true.
Proof.
  induction rest as [|x rest IH]; intros best; simpl.
  - now left.
  - destruct (key x <? key best)%float eqn:E.
    + right. destruct (IH x) as [H|H].
      * now rewrite H.
      * eapply ltb_trans; eauto.
    + apply IH.
Qed.

Lemma min_by_least (rest : list nat) :
  forall best x,
    In x (best :: rest) -> (key x <? key (min_by key best rest))%float = false.
Proof.
  induction rest as [|y rest IH]; intros best x Hx.
  - simpl in *. destruct Hx as [<-|[]]. apply ltb_irrefl.
  - cbn [min_by]. destruct (key y <? key best)%float eqn:E.
    + destruct Hx as [<-|[<-|Hx]].
      * destruct (min_by_below rest y) as [H|H].
        -- rewrite H. now apply ltb_asym.
        -- apply ltb_asym. eapply ltb_trans; eauto.
      * apply IH. now left.
      * apply IH. now right.
    + destruct Hx as [<-|[<-|Hx]].
      * apply IH. now left.
      * destruct (min_by_below rest best) as [H|H].
        -- now rewrite H.
        -- destruct (key y <? key (min_by key best rest))%float eqn:E'; auto.
           pose proof (ltb_trans _ _ _ E' H) as Hc. congruence.
      * apply IH. now right.
Qed.

End MinBy.

(** ** Sequencer: the loop follows the greedy rule *)

Lemma remove_length (x : nat) (l : list nat) :
  NoDup l -> In x l -> S (length (remove Nat.eq_dec x l)) = length l.
Proof.
  induction l as [|y l IH]; intros Hnd Hin; [contradiction|].
  inversion Hnd as [|? ? Hnot Hnd']. subst. simpl.
  destruct (Nat.eq_dec x y) as [->|Hne].
  - rewrite notin_remove by assumption. reflexivity.
  - simpl. f_equal. apply IH; auto. destruct Hin; congruence.
Qed.

Lemma remove_NoDup (x : nat) (l : list nat) :
  NoDup l -> NoDup (remove Nat.eq_dec x l).
Proof.
  induction l as [|y l IH]; intros Hnd; simpl; auto.
  inversion Hnd as [|? ? Hnot Hnd']. subst.
  destruct (Nat.eq_dec x y); auto.
  constructor; auto. intros Hin. apply in_remove in Hin. tauto.
Qed.

Lemma remove_perm (x : nat) (l : list nat) :
  NoDup l -> In x l -> Permutation l (x :: remove Nat.eq_dec x l).
Proof.
  induction l as [|y l IH]; intros Hnd Hin; [contradiction|].
  inversion Hnd as [|? ? Hnot Hnd']. subst. simpl.
  destruct (Nat.eq_dec x y) as [->|Hne].
  - now rewrite notin_remove by assumption.
  - rewrite perm_swap. constructor. apply IH; auto. destruct Hin; congruence.
Qed.

Lemma visit_loop_greedy (route_points : list Z) (distances : list (list float)) :
  forall turns current_location unvisited optimized_route,
    NoDup unvisited -> length unvisited = turns ->
    exists stops,
      visit_loop turns route_points distances current_location unvisited optimized_route
      = optimized_route ++ stops
      /\ greedy route_points (entry distances) current_location unvisited stops.
Proof.
  induction turns as [|n IH]; intros c unv acc Hnd Hlen.
  - destruct unv; [|discriminate]. exists []. simpl. rewrite app_nil_r.
    split; [reflexivity | constructor].
  - destruct unv as [|x rest]; [discriminate|]. cbn [visit_loop].
    set (next := min_by (fun y => entry distances c y) x rest).
    assert (Hin : In next (x :: rest)) by apply min_by_In.
    destruct (IH next (remove Nat.eq_dec next (x :: rest))
                (acc ++ [nth next route_points DEPOT])) as [stops [Heq Hg]].
    + now apply remove_NoDup.
    + pose proof (remove_length next (x :: rest) Hnd Hin) as Hl. simpl in *. lia.
    + exists (nth next route_points DEPOT :: stops). split.
      * rewrite Heq, <- app_assoc. reflexivity.
      * constructor; auto.
        intros y Hy. apply (min_by_least (fun y => entry distances c y)). exact Hy.
Qed.

Lemma greedy_perm (route_points : list Z) (dist : nat -> nat -> float) :
  forall c unvisited stops,
    greedy route_points dist c unvisited stops ->
    NoDup unvisited ->
    Permutation stops (map (fun i => nth i route_points DEPOT) unvisited).
Proof.
  induction 1 as [c|c unv next stops Hin Hmin Hg IH]; intros Hnd.
  - constructor.
  - rewrite (Permutation_map _ (remove_perm next unv Hnd Hin)). simpl.
    constructor. apply IH. now apply remove_NoDup.
Qed.

Lemma interior_points (d : Z) (l t : list Z) :
  forall pre, map (fun i => nth i (pre ++ l ++ t) d) (seq (length pre) (length l)) = l.
Proof.
  induction l as [|a l IH]; intros pre; simpl; auto.
  rewrite nth_middle. f_equal.
  specialize (IH (pre ++ [a])).
  rewrite length_app, Nat.add_1_r, <- app_assoc in IH. exact IH.
Qed.

(** ** Sequencer: one truck *)

(** Inside the matrix, an entry is the Euclidean distance of two rows. *)
Lemma entry_cdist (route_coords : list coord) (i j : nat) (d : coord) :
  (i < length route_coords)%nat -> (j < length route_coords)%nat ->
  entry (cdist route_coords route_coords) i j
  = euclidean (nth i route_coords d) (nth j route_coords d).
Proof.
  intros Hi Hj. unfold entry, cdist.
  rewrite (nth_indep _ [] (map (euclidean d) route_coords))
    by (now rewrite length_map).
  rewrite (map_nth (fun u => map (euclidean u) route_coords)).
  rewrite (nth_indep _ nan (euclidean (nth i route_coords d) d))
    by (now rewrite length_map).
  apply map_nth.
Qed.

(** With unique labels, [loc] yields one row per label, in label order. *)
Lemma loc_list_rows (labels : list Z) (t : table) :
  NoDup (map fst t) ->
  forall route_coords,
    loc_list labels t = Ok route_coords ->
    Forall2 (fun label c => In (label, c) t) labels route_coords.
Proof.
  intros Hnd. induction labels as [|l labels IH]; intros rc H; simpl in H.
  - inversion H. constructor.
  - apply bind_ok in H. destruct H as [rows [Hrows H]].
    apply bind_ok in H. destruct H as [rest [Hrest H]].
    inversion H. subst rc. clear H.
    unfold loc_label in Hrows.
    destruct (filter (has_label l) t) as [|[l0 c0] more] eqn:Ef; [discriminate|].
    inversion Hrows. subst rows. clear Hrows.
    assert (Hin0 : In (l0, c0) (filter (has_label l) t)) by (rewrite Ef; now left).
    apply filter_In in Hin0. destruct Hin0 as [Hin0 Hl0].
    unfold has_label in Hl0. simpl in Hl0. apply Z.eqb_eq in Hl0. subst l0.
    assert (Hmore : more = []).
    { destruct more as [|[l1 c1] more']; auto. exfalso.
      assert (Hcount : (2 <= length (filter (has_label l) t))%nat)
        by (rewrite Ef; simpl; lia).
      clear -Hnd Hcount. induction t as [|row t IHt]; simpl in *; [lia|].
      inversion Hnd as [|? ? Hnot Hnd']. subst.
      unfold has_label at 1 in Hcount. destruct (fst row =? l) eqn:E.
      - apply Z.eqb_eq in E. simpl in Hcount.
        destruct (filter (has_label l) t) as [|r1 ?] eqn:Ef'; simpl in Hcount; [lia|].
        assert (Hr1 : In r1 (filter (has_label l) t)) by (rewrite Ef'; now left).
        apply filter_In in Hr1. destruct Hr1 as [Hr1 Hl1].
        unfold has_label in Hl1. apply Z.eqb_eq in Hl1.
        apply Hnot. rewrite E, <- Hl1. now apply in_map.
      - now apply IHt. }
    subst more. simpl. constructor; auto.
Qed.

Lemma route_of_truck_spec (coordinates : table) (retailers : list Z)
    (route_coords : list coord) :
  loc_list (DEPOT :: retailers ++ [DEPOT]) coordinates = Ok route_coords ->
  exists stops,
    route_of_truck coordinates retailers = Ok (DEPOT :: stops ++ [DEPOT])
    /\ greedy (DEPOT :: retailers ++ [DEPOT])
              (entry (cdist route_coords route_coords)) 0
              (seq 1 (length retailers)) stops
    /\ Permutation stops retailers.
Proof.
  intros Hloc. unfold route_of_truck.
  change ([DEPOT] ++ retailers ++ [DEPOT]) with (DEPOT :: retailers ++ [DEPOT]).
  rewrite Hloc. cbn [bind].
  assert (Hlen : (length (DEPOT :: retailers ++ [DEPOT]) - 2 = length retailers)%nat).
  { simpl. rewrite length_app. simpl. lia. }
  rewrite Hlen.
  destruct (visit_loop_greedy (DEPOT :: retailers ++ [DEPOT])
              (cdist route_coords route_coords)
              (length (seq 1 (length retailers))) 0%nat (seq 1 (length retailers))
              [DEPOT] (seq_NoDup _ _) eq_refl) as [stops [Heq Hg]].
  exists stops. rewrite Heq. repeat split; auto.
  pose proof (greedy_perm _ _ _ _ _ Hg (seq_NoDup _ _)) as Hp.
  pose proof (interior_points DEPOT retailers [DEPOT] [DEPOT]) as Hi.
  simpl in Hi. simpl in Hp. rewrite Hi in Hp. exact Hp.
Qed.

Lemma loc_set_labels (l : Z) (v : coord) (t : table) (x : Z) :
  In x (map fst t) \/ x = l -> In x (map fst (loc_set l v t)).
Proof.
  unfold loc_set. destruct (existsb (has_label l) t) eqn:E.
  - intros [H| ->].
    + rewrite map_map. apply in_map_iff in H. destruct H as [row [<- Hrow]].
      apply in_map_iff. exists row. split; auto. now destruct (has_label l row).
    + apply existsb_exists in E. destruct E as [row [Hrow Hl]].
      unfold has_label in Hl. apply Z.eqb_eq in Hl. subst l.
      rewrite map_map. apply in_map_iff. exists row. split; auto.
      now destruct (has_label (fst row) row).
  - rewrite map_app. intros [H| ->]; apply in_or_app; [now left | right; now left].
Qed.

Lemma loc_label_ok (label : Z) (t : table) :
  In label (map fst t) -> exists rows, loc_label label t = Ok rows.
Proof.
  intros H. unfold loc_label.
  destruct (filter (has_label label) t) as [|row rows] eqn:E; [|eauto].
  exfalso. apply in_map_iff in H. destruct H as [row [Hl Hrow]].
  assert (Hin : In row (filter (has_label label) t)).
  { apply filter_In. split; auto. unfold has_label. now apply Z.eqb_eq. }
  rewrite E in Hin. contradiction.
Qed.

Lemma loc_list_ok (labels : list Z) (t : table) :
  (forall x, In x labels -> In x (map fst t)) ->
  exists route_coords, loc_list labels t = Ok route_coords.
Proof.
  induction labels as [|l labels IH]; intros H; simpl; [eauto|].
  destruct (loc_label_ok l t) as [rows Hr]; [apply H; now left|].
  destruct IH as [rest Hrest]; [intros; apply H; now right|].
  rewrite Hr, Hrest. simpl. eauto.
Qed.

(** ** Sequencer: all trucks of a day *)

Lemma route_trucks_spec (coordinates : table) (items : day_schedule) :
  forall optimized_routes,
    NoDup (Dict.keys items) ->
    (forall truck_id retailers x,
        In (truck_id, retailers) items -> In x retailers ->
        In x (map fst coordinates)) ->
    In DEPOT (map fst coordinates) ->
    exists routes,
      route_trucks coordinates items optimized_routes = Ok routes
      /\ (forall truck_id, ~ In truck_id (Dict.keys items) ->
                           Dict.get truck_id routes = Dict.get truck_id optimized_routes)
      /\ (forall truck_id retailers,
             In (truck_id, retailers) items ->
             match retailers with
             | [] => Dict.get truck_id routes = Dict.get truck_id optimized_routes
             | _ :: _ =>
                 exists stops,
                   Dict.get truck_id routes = Some (DEPOT :: stops ++ [DEPOT])
                   /\ Permutation stops retailers
             end).
Proof.
  induction items as [|[t l] items IH]; intros acc Hnd Hids Hdepot.
  - exists acc. simpl. repeat split; auto. contradiction.
  - inversion Hnd as [|? ? Hnot Hnd']. subst.
    assert (Hids' : forall truck_id retailers x,
               In (truck_id, retailers) items -> In x retailers ->
               In x (map fst coordinates)).
    { intros. eapply Hids; [right|]; eauto. }
    cbn [route_trucks]. destruct l as [|r0 l].
    + destruct (IH acc Hnd' Hids' Hdepot) as [routes [Hrun [Hout Hin]]].
      exists routes. split; [exact Hrun|]. split.
      * intros truck Hk. apply Hout. simpl in Hk. tauto.
      * intros truck retailers [Heq|Hmem]; [|now apply Hin].
        inversion Heq. subst. now apply Hout.
    + destruct (loc_list_ok (DEPOT :: (r0 :: l) ++ [DEPOT]) coordinates) as [rc Hrc].
      { intros x [<-|Hx]; auto. apply in_app_or in Hx. destruct Hx as [Hx|[<-|[]]]; auto.
        eapply Hids; [left; reflexivity | exact Hx]. }
      destruct (route_of_truck_spec coordinates (r0 :: l) rc Hrc) as [stops [Hroute [_ Hperm]]].
      rewrite Hroute. cbn [bind].
      destruct (IH (Dict.set t (DEPOT :: stops ++ [DEPOT]) acc) Hnd' Hids' Hdepot)
        as [routes [Hrun [Hout Hin]]].
      exists routes. split; [exact Hrun|]. split.
      * intros truck Hk. simpl in Hk. rewrite Hout by tauto.
        apply DictFacts.get_set_ne. tauto.
      * intros truck retailers [Heq|Hmem].
        -- inversion Heq. subst. exists stops. split; auto.
           rewrite (Hout truck Hnot). apply DictFacts.get_set_eq.
        -- specialize (Hin truck retailers Hmem).
           destruct retailers; auto. rewrite Hin.
           apply DictFacts.get_set_ne. intros ->. apply Hnot.
           change truck with (fst (truck, @nil Z)). now apply in_map.
Qed.

Lemma set_index_labels (data : list outlet) :
  map fst (set_index data) = map OUTLET_ID data.
Proof. unfold set_index. rewrite map_map. reflexivity. Qed.

(** ** Sequencer: the claims *)

(** C5, evaluated on the code. The scheduler gives a truck the same
    outlet twice on one day ([two_visits] under the oracle [always 0]);
    the route of that truck then stops twice at the outlet. *)
Theorem repeated_stop :
  optimize_delivery_routes (always 0) two_visits origin one_truck_a_day 0
  = Ok [(0, [(0, [-1; 7; 7; -1])]); (1, []); (2, []); (3, []); (4, [])]
  /\ optimize_routes_for_a_day [(0, [7; 7])] two_visits origin
     = Ok [(0, [-1; 7; 7; -1])]
  /\ zcount 7 [-1; 7; 7; -1] = 2%nat.
Proof. repeat split. Qed.

(** X25. When every assigned outlet is in the outlet table, the sequencer
    returns; a truck with an empty list gets no route; any other truck
    gets a route that starts and ends at the depot and whose other stops
    are its assigned list in some order. *)
Theorem routes_of_a_day (schedule : day_schedule) (data : list outlet)
    (depot_coordinates : coord) :
  NoDup (Dict.keys schedule) ->
  (forall truck_id retailers x,
      In (truck_id, retailers) schedule -> In x retailers ->
      In x (map OUTLET_ID data)) ->
  exists routes,
    optimize_routes_for_a_day schedule data depot_coordinates = Ok routes
    /\ forall truck_id retailers,
         In (truck_id, retailers) schedule ->
         match retailers with
         | [] => Dict.get truck_id routes = None
         | _ :: _ =>
             exists stops,
               Dict.get truck_id routes = Some (DEPOT :: stops ++ [DEPOT])
               /\ Permutation stops retailers
         end.
Proof.
  intros Hnd Hids. unfold optimize_routes_for_a_day.
  destruct (route_trucks_spec
              (loc_set DEPOT depot_coordinates (set_index data)) schedule [] Hnd)
    as [routes [Hrun [_ Hin]]].
  - intros truck retailers x Hmem Hx. apply loc_set_labels. left.
    rewrite set_index_labels. eapply Hids; eauto.
  - apply loc_set_labels. now right.
  - exists routes. split; [exact Hrun|]. exact Hin.
Qed.

(** A permutation of a duplicate-free list is duplicate-free: with no
    repeated outlet in the assigned list, every stop is made once. *)
Lemma stops_once (stops retailers : list Z) :
  Permutation stops retailers -> NoDup retailers ->
  NoDup stops /\ forall x, In x stops <-> In x retailers.
Proof.
  intros Hp Hnd. split.
  - eapply Permutation_NoDup; [symmetry; exact Hp | exact Hnd].
  - intros x. split; apply Permutation_in; [exact Hp | now symmetry].
Qed.

Lemma routes_of_a_day_witness :
  exists routes,
    optimize_routes_for_a_day [(0, [30; 10; 20]); (1, [])] three_outlets origin
    = Ok routes
    /\ forall truck_id retailers,
         In (truck_id, retailers) [(0, [30; 10; 20]); (1, [])] ->
         match retailers with
         | [] => Dict.get truck_id routes = None
         | _ :: _ =>
             exists stops,
               Dict.get truck_id routes = Some (DEPOT :: stops ++ [DEPOT])
               /\ Permutation stops retailers
         end.
Proof.
  apply (routes_of_a_day [(0, [30; 10; 20]); (1, [])] three_outlets origin).
  - apply nodupb_NoDup. reflexivity.
  - simpl. intros truck_id retailers x [H|[H|[]]] Hx; inversion H; subst; simpl in Hx;
      intuition.
Defined.

Lemma perm3_cases (a b c : Z) (l : list Z) :
  Permutation [a; b; c] l ->
  l = [a; b; c] \/ l = [a; c; b] \/ l = [b; a; c] \/
  l = [b; c; a] \/ l = [c; a; b] \/ l = [c; b; a].
Proof.
  intros Hp. pose proof (Permutation_length Hp) as Hlen.
  destruct l as [|x [|y [|z [|? ?]]]]; try discriminate.
  assert (Hx : In x [a; b; c]) by (eapply Permutation_in; [symmetry; exact Hp | now left]).
  destruct Hx as [<-|[<-|[<-|[]]]].
  - apply Permutation_cons_inv in Hp.
    destruct (Permutation_length_2_inv Hp) as [H|H]; inversion H; subst; tauto.
  - assert (Hp' : Permutation [b; a; c] [b; y; z])
      by (etransitivity; [apply perm_swap | exact Hp]).
    apply Permutation_cons_inv in Hp'.
    destruct (Permutation_length_2_inv Hp') as [H|H]; inversion H; subst; tauto.
  - assert (Hp' : Permutation [c; a; b] [c; y; z]).
    { etransitivity; [|exact Hp].
      change [c; a; b] with ([c] ++ [a; b]). change [a; b; c] with ([a; b] ++ [c]).
      apply Permutation_app_comm. }
    apply Permutation_cons_inv in Hp'.
    destruct (Permutation_length_2_inv Hp') as [H|H]; inversion H; subst; tauto.
Qed.

(** ** Projector and export *)

Lemma mapM_Forall2 {A B : Type} (f : A -> result B) (l : list A) :
  forall out, mapM f l = Ok out -> Forall2 (fun a b => f a = Ok b) l out.
Proof.
  induction l as [|a l IH]; intros out H; simpl in H.
  - inversion H. constructor.
  - apply bind_ok in H. destruct H as [b [Hb H]].
    apply bind_ok in H. destruct H as [bs [Hbs H]].
    inversion H. subst. constructor; auto.
Qed.

Lemma Forall2_In_r {A B : Type} (R : A -> B -> Prop) (l : list A) (l' : list B) (b : B) :
  Forall2 R l l' -> In b l' -> exists a, In a l /\ R a b.
Proof.
  induction 1 as [|a0 b0 l l' Hab Hrest IH]; intros Hin; [contradiction|].
  destruct Hin as [<-|Hin].
  - exists a0. split; [now left | assumption].
  - destruct (IH Hin) as [a [Ha HR]]. exists a. split; [now right | assumption].
Qed.

Lemma Forall2_nth_error_r {A B : Type} (R : A -> B -> Prop) (l : list A) (l' : list B) :
  Forall2 R l l' ->
  forall n b, nth_error l' n = Some b -> exists a, nth_error l n = Some a /\ R a b.
Proof.
  induction 1 as [|a0 b0 l l' Hab Hrest IH]; intros n b Hn.
  - destruct n; discriminate.
  - destruct n as [|n]; simpl in *.
    + inversion Hn. subst. eauto.
    + apply IH. exact Hn.
Qed.

Lemma In_enumerate_from {A : Type} (l : list A) :
  forall start i a,
    In (i, a) (enumerate_from start l) ->
    exists n, i = start + Z.of_nat n /\ nth_error l n = Some a.
Proof.
  induction l as [|x l IH]; intros start i a Hin; simpl in Hin; [contradiction|].
  destruct Hin as [Heq|Hin].
  - inversion Heq. subst. exists 0%nat. split; [lia | reflexivity].
  - destruct (IH _ _ _ Hin) as [n [Hi Hn]]. exists (S n). split; [lia | exact Hn].
Qed.

Lemma set_fresh {V : Type} (k : Z) (v : V) (d : Dict.t V) :
  ~ In k (Dict.keys d) -> Dict.set k v d = d ++ [(k, v)].
Proof.
  induction d as [|[k' v'] d IH]; intros Hk; simpl in *; auto.
  destruct (k' =? k) eqn:E.
  - apply Z.eqb_eq in E. tauto.
  - rewrite IH by tauto. reflexivity.
Qed.

(** The projector keeps the days of the plan and, for each day, lists the
    coordinate routes in the order the plan lists that day's routes. *)
Lemma transform_days_spec (coordinates_dict : Dict.t coord) (items : route_plan) :
  forall acc t,
    NoDup (Dict.keys items) ->
    (forall k, In k (Dict.keys items) -> ~ In k (Dict.keys acc)) ->
    transform_days coordinates_dict items acc = Ok t ->
    exists outs,
      t = acc ++ outs
      /\ Forall2 (fun item out =>
                    fst out = fst item
                    /\ mapM (fun it => mapM (stop_coords coordinates_dict) (snd it))
                            (snd item) = Ok (snd out))
                 items outs.
Proof.
  induction items as [|[day trucks_routes] items IH]; intros acc t Hnd Hfresh H.
  - simpl in H. inversion H. exists []. rewrite app_nil_r. split; [reflexivity | constructor].
  - cbn [transform_days] in H. apply bind_ok in H. destruct H as [day_routes [Hm H]].
    inversion Hnd as [|? ? Hnot Hnd']. subst.
    rewrite set_fresh in H by (apply Hfresh; now left).
    apply IH in H; auto.
    + destruct H as [outs [-> HF]]. exists ((day, day_routes) :: outs).
      rewrite <- app_assoc. split; [reflexivity|].
      constructor; auto.
    + intros k Hk. unfold Dict.keys. rewrite map_app, in_app_iff. simpl.
      intros [Hin|[<-|[]]].
      * apply (Hfresh k); [now right | exact Hin].
      * contradiction.
Qed.

(** C8, as stated, fails on the code. The visit of [one_visit] goes to
    truck 1 of day 1; the export numbers that route by its position among
    the day's routes, so the rows carry truck 1, not 1 + 1. *)
Lemma truck_index_not_exported :
  optimize_delivery_routes (always 1) one_visit origin two_trucks_a_day 0
  = Ok second_truck_plan
  /\ Dict.get 1 second_truck_plan = Some [(1, [-1; 7; -1])]
  /\ (t <- transform_routes_to_coordinates second_truck_plan one_visit ;;
      Ok (index_columns (routes_to_dataframe t)))
     = Ok [(2, 1, 1); (2, 1, 2); (2, 1, 3)].
Proof. repeat split. Qed.

(** C8, amended. Every exported row comes from one stop of one route of
    the plan: its day is the plan's day plus 1, its truck is the position
    of the route among that day's routes plus 1, its step is the position
    of the stop in the route plus 1, and its coordinates are those of the
    stop. *)
Theorem export_indices (optimized_routes : route_plan) (data : list outlet)
    (transformed_routes : Dict.t (list (list coord))) :
  NoDup (Dict.keys optimized_routes) ->
  transform_routes_to_coordinates optimized_routes data = Ok transformed_routes ->
  forall row, In row (routes_to_dataframe transformed_routes) ->
    exists day trucks_routes position truck_id route step stop,
      In (day, trucks_routes) optimized_routes
      /\ nth_error trucks_routes position = Some (truck_id, route)
      /\ nth_error route step = Some stop
      /\ Day row = day + 1
      /\ Truck_ID row = Z.of_nat position + 1
      /\ Step row = Z.of_nat step + 1
      /\ stop_coords (set_index data) stop = Ok (Latitude row, Longitude row).
Proof.
  intros Hnd H row Hrow. unfold transform_routes_to_coordinates in H.
  apply bind_ok in H. destruct H as [dict [Hd H]].
  unfold to_dict_index in Hd.
  destruct (nodupb (map fst (set_index data))); inversion Hd. subst dict. clear Hd.
  apply transform_days_spec in H; auto.
  destruct H as [outs [-> HF]]. simpl in Hrow.
  unfold routes_to_dataframe in Hrow. apply in_flat_map in Hrow.
  destruct Hrow as [[day' day_routes] [Hout Hrow]].
  destruct (Forall2_In_r _ _ _ _ HF Hout) as [[day trucks_routes] [Hitem [Hday Hm]]].
  simpl in Hday, Hm, Hrow. subst day'.
  unfold rows_of_day in Hrow. apply in_flat_map in Hrow.
  destruct Hrow as [[i route_coords] [Hi Hrow]].
  apply In_enumerate_from in Hi. destruct Hi as [position [-> Hpos]].
  apply mapM_Forall2 in Hm.
  destruct (Forall2_nth_error_r _ _ _ Hm _ _ Hpos) as [[truck_id route] [Hroute Hmr]].
  simpl in Hmr, Hrow. unfold rows_of_route in Hrow. apply in_map_iff in Hrow.
  destruct Hrow as [[j c] [<- Hj]].
  apply In_enumerate_from in Hj. destruct Hj as [step [-> Hstep]].
  apply mapM_Forall2 in Hmr.
  destruct (Forall2_nth_error_r _ _ _ Hmr _ _ Hstep) as [stop [Hstop Hc]].
  exists day, trucks_routes, position, truck_id, route, step, stop.
  simpl. repeat split; auto. rewrite Hc. now destruct c.
Qed.

Lemma export_indices_witness :
  exists day trucks_routes position truck_id route step stop,
    In (day, trucks_routes) second_truck_plan
    /\ nth_error trucks_routes position = Some (truck_id, route)
    /\ nth_error route step = Some stop
    /\ 2 = day + 1
    /\ 1 = Z.of_nat position + 1
    /\ 2 = Z.of_nat step + 1
    /\ stop_coords (set_index one_visit) stop = Ok (1%float, 0%float).
Proof.
  apply (export_indices second_truck_plan one_visit
           [(0, []); (1, [[DEPOT_COORDINATES; (1, 0)%float; DEPOT_COORDINATES]]);
            (2, []); (3, []); (4, [])]
           (nodupb_NoDup [0; 1; 2; 3; 4] eq_refl)
           eq_refl
           {| Day := 2; Truck_ID := 1; Step := 2; Latitude := 1; Longitude := 0 |}).
  simpl. auto.
Defined.

(** ** The depot sentinel *)

Lemma filter_no_label (l : Z) (t : table) :
  ~ In l (map fst t) -> filter (has_label l) t = [].
Proof.
  induction t as [|row t IH]; intros H; simpl in *; auto.
  unfold has_label at 1. destruct (fst row =? l) eqn:E.
  - apply Z.eqb_eq in E. tauto.
  - apply IH. tauto.
Qed.

Lemma filter_set_index (data : list outlet) (r : outlet) :
  NoDup (map OUTLET_ID data) -> In r data ->
  filter (has_label (OUTLET_ID r)) (set_index data)
  = [(OUTLET_ID r, (LATITUDE r, LONGITUDE r))].
Proof.
  induction data as [|r0 data IH]; intros Hnd Hin; [contradiction|].
  inversion Hnd as [|? ? Hnot Hnd']. subst. simpl.
  unfold has_label at 1. simpl. destruct Hin as [->|Hin].
  - rewrite Z.eqb_refl. f_equal. apply filter_no_label.
    now rewrite set_index_labels.
  - destruct (OUTLET_ID r0 =? OUTLET_ID r) eqn:E.
    + apply Z.eqb_eq in E. exfalso. apply Hnot. rewrite E. now apply in_map.
    + now apply IH.
Qed.

Lemma has_label_iff (l : Z) (row : Z * coord) :
  has_label l row = true <-> fst row = l.
Proof. unfold has_label. apply Z.eqb_eq. Qed.

Lemma has_label_overwritten (l : Z) (row : Z * coord) (v : coord) :
  has_label l (fst row, v) = has_label l row.
Proof. reflexivity. Qed.

Lemma filter_loc_set_other (label l : Z) (v : coord) (t : table) :
  label <> l ->
  filter (has_label label) (loc_set l v t) = filter (has_label label) t.
Proof.
  intros Hne. unfold loc_set. destruct (existsb (has_label l) t).
  - induction t as [|row t IH]; cbn [map filter]; auto.
    destruct (has_label l row) eqn:El.
    + rewrite has_label_overwritten.
      assert (Hno : has_label label row = false).
      { apply has_label_iff in El. destruct (has_label label row) eqn:E; auto.
        apply has_label_iff in E. congruence. }
      rewrite Hno. exact IH.
    + destruct (has_label label row); [f_equal|]; exact IH.
  - rewrite filter_app. cbn [filter].
    assert (Hno : has_label label (l, v) = false).
    { destruct (has_label label (l, v)) eqn:E; auto.
      apply has_label_iff in E. simpl in E. congruence. }
    rewrite Hno. apply app_nil_r.
Qed.

Lemma filter_overwritten_none (l : Z) (v : coord) (t : table) :
  ~ In l (map fst t) ->
  filter (has_label l)
    (map (fun row => if has_label l row then (fst row, v) else row) t) = [].
Proof.
  induction t as [|row t IH]; intros Hn; cbn [map filter]; auto.
  simpl in Hn.
  assert (El : has_label l row = false).
  { destruct (has_label l row) eqn:E; auto. apply has_label_iff in E. tauto. }
  rewrite El, El. apply IH. tauto.
Qed.

Lemma filter_loc_set_same (l : Z) (v : coord) (t : table) :
  NoDup (map fst t) -> filter (has_label l) (loc_set l v t) = [(l, v)].
Proof.
  intros Hnd. unfold loc_set. destruct (existsb (has_label l) t) eqn:Ex.
  - induction t as [|row t IH]; [discriminate|].
    inversion Hnd as [|? ? Hnot Hnd']. subst.
    cbn [map filter existsb] in *.
    destruct (has_label l row) eqn:El.
    + rewrite has_label_overwritten, El. apply has_label_iff in El. subst l.
      f_equal. now apply filter_overwritten_none.
    + rewrite El. simpl in Ex. now apply IH.
  - rewrite filter_app, filter_no_label; cbn [filter app].
    + assert (Hyes : has_label l (l, v) = true) by now apply has_label_iff.
      now rewrite Hyes.
    + intros Hin. apply in_map_iff in Hin. destruct Hin as [row [Hl Hrow]].
      assert (existsb (has_label l) t = true); [|congruence].
      apply existsb_exists. exists row. split; auto. now apply has_label_iff.
Qed.

(** ** Sequencer: route points and their places *)

Lemma own_coordinates_row (data : list outlet) (r : outlet) :
  NoDup (map OUTLET_ID data) -> In r data ->
  own_coordinates data (OUTLET_ID r) = (LATITUDE r, LONGITUDE r).
Proof.
  unfold own_coordinates.
  induction data as [|r0 data IH]; intros Hnd Hin; [contradiction|].
  inversion Hnd as [|? ? Hnot Hnd']. subst. cbn [find].
  destruct (OUTLET_ID r0 =? OUTLET_ID r) eqn:E.
  - destruct Hin as [->|Hin]; [reflexivity|].
    apply Z.eqb_eq in E. exfalso. apply Hnot. rewrite E. now apply in_map.
  - destruct Hin as [->|Hin]; [rewrite Z.eqb_refl in E; discriminate|].
    now apply IH.
Qed.

Lemma loc_label_point (data : list outlet) (depot_coordinates : coord) (label : Z) :
  NoDup (map OUTLET_ID data) ->
  In label (map OUTLET_ID data) \/ label = DEPOT ->
  loc_label label (loc_set DEPOT depot_coordinates (set_index data))
  = Ok [point_coordinates data depot_coordinates label].
Proof.
  intros Hnd Hl. unfold loc_label, point_coordinates.
  destruct (label =? DEPOT) eqn:E.
  - apply Z.eqb_eq in E. subst label.
    rewrite filter_loc_set_same; [reflexivity|]. now rewrite set_index_labels.
  - apply Z.eqb_neq in E. destruct Hl as [Hl|Hl]; [|contradiction].
    apply in_map_iff in Hl. destruct Hl as [r [<- Hr]].
    rewrite filter_loc_set_other by assumption.
    rewrite filter_set_index by assumption.
    rewrite own_coordinates_row by assumption. reflexivity.
Qed.

Lemma loc_list_points (data : list outlet) (depot_coordinates : coord)
    (labels : list Z) :
  NoDup (map OUTLET_ID data) ->
  (forall x, In x labels -> In x (map OUTLET_ID data) \/ x = DEPOT) ->
  loc_list labels (loc_set DEPOT depot_coordinates (set_index data))
  = Ok (map (point_coordinates data depot_coordinates) labels).
Proof.
  intros Hnd. induction labels as [|l labels IH]; intros H; [reflexivity|].
  cbn [loc_list map]. rewrite loc_label_point by (auto; apply H; now left).
  rewrite IH by (intros; apply H; now right). reflexivity.
Qed.

Lemma greedy_ext (route_points : list Z) (dist dist' : nat -> nat -> float) (n : nat) :
  (forall i j, (i < n)%nat -> (j < n)%nat -> dist i j = dist' i j) ->
  forall c unvisited stops,
    greedy route_points dist c unvisited stops ->
    (c < n)%nat -> (forall x, In x unvisited -> (x < n)%nat) ->
    greedy route_points dist' c unvisited stops.
Proof.
  intros Hd. induction 1 as [c|c unv next stops Hin Hmin Hg IH]; intros Hc Hunv.
  - constructor.
  - constructor; auto.
    + intros x Hx. rewrite <- !Hd by auto. now apply Hmin.
    + apply IH; auto. intros x Hx. apply in_remove in Hx. apply Hunv. tauto.
Qed.

Lemma route_of_truck_points (data : list outlet) (depot_coordinates : coord)
    (retailers : list Z) :
  NoDup (map OUTLET_ID data) ->
  (forall x, In x retailers -> In x (map OUTLET_ID data)) ->
  exists stops,
    route_of_truck (loc_set DEPOT depot_coordinates (set_index data)) retailers
    = Ok (DEPOT :: stops ++ [DEPOT])
    /\ greedy (DEPOT :: retailers ++ [DEPOT])
              (point_distance data depot_coordinates (DEPOT :: retailers ++ [DEPOT]))
              0 (seq 1 (length retailers)) stops
    /\ Permutation stops retailers.
Proof.
  intros Hnd Hids.
  set (pts := DEPOT :: retailers ++ [DEPOT]).
  assert (Hloc : loc_list pts (loc_set DEPOT depot_coordinates (set_index data))
                 = Ok (map (point_coordinates data depot_coordinates) pts)).
  { apply loc_list_points; auto. intros x [<-|Hx]; auto.
    apply in_app_or in Hx. destruct Hx as [Hx|[<-|[]]]; auto. }
  destruct (route_of_truck_spec _ retailers _ Hloc) as [stops [Hroute [Hg Hp]]].
  exists stops. split; [exact Hroute|]. split; [|exact Hp].
  assert (Hlen : length pts = S (S (length retailers))).
  { unfold pts. simpl. rewrite length_app. simpl. lia. }
  apply (greedy_ext pts _ _ (length pts)) with (2 := Hg).
  - intros i j Hi Hj. unfold point_distance.
    rewrite (entry_cdist _ i j (point_coordinates data depot_coordinates DEPOT))
      by (now rewrite length_map).
    now rewrite !map_nth.
  - lia.
  - intros x Hx. apply in_seq in Hx. lia.
Qed.

Lemma route_trucks_each (coordinates : table) (P : list Z -> list Z -> Prop)
    (items : day_schedule) :
  NoDup (Dict.keys items) ->
  (forall truck_id retailers,
      In (truck_id, retailers) items -> retailers <> [] ->
      exists route, route_of_truck coordinates retailers = Ok route /\ P retailers route) ->
  forall optimized_routes,
  exists routes,
    route_trucks coordinates items optimized_routes = Ok routes
    /\ (forall truck_id, ~ In truck_id (Dict.keys items) ->
          Dict.get truck_id routes = Dict.get truck_id optimized_routes)
    /\ (forall truck_id retailers,
          In (truck_id, retailers) items -> retailers <> [] ->
          exists route, Dict.get truck_id routes = Some route /\ P retailers route).
Proof.
  induction items as [|[t l] items IH]; intros Hnd Hall acc.
  - exists acc. repeat split; auto. contradiction.
  - inversion Hnd as [|? ? Hnot Hnd']. subst.
    assert (Hall' : forall truck_id retailers,
               In (truck_id, retailers) items -> retailers <> [] ->
               exists route, route_of_truck coordinates retailers = Ok route
                             /\ P retailers route).
    { intros truck retailers Hm Hne. apply (Hall truck retailers); auto. now right. }
    cbn [route_trucks]. destruct l as [|r0 l].
    + destruct (IH Hnd' Hall' acc) as [routes [Hrun [Hout Hin]]].
      exists routes. split; [exact Hrun|]. split.
      * intros truck Hk. apply Hout. simpl in Hk. tauto.
      * intros truck retailers [Heq|Hmem] Hne; [|now apply Hin].
        inversion Heq. subst. contradiction.
    + destruct (Hall t (r0 :: l)) as [route [Hroute HP]];
        [now left | discriminate |].
      rewrite Hroute. cbn [bind].
      destruct (IH Hnd' Hall' (Dict.set t route acc)) as [routes [Hrun [Hout Hin]]].
      exists routes. split; [exact Hrun|]. split.
      * intros truck Hk. simpl in Hk. rewrite Hout by tauto.
        apply DictFacts.get_set_ne. tauto.
      * intros truck retailers [Heq|Hmem] Hne; [|now apply Hin].
        inversion Heq. subst. exists route. split; auto.
        rewrite (Hout truck Hnot). apply DictFacts.get_set_eq.
Qed.

Lemma sequencer_points (schedule : day_schedule) (data : list outlet)
    (depot_coordinates : coord) :
  NoDup (map OUTLET_ID data) ->
  NoDup (Dict.keys schedule) ->
  (forall truck_id retailers x,
      In (truck_id, retailers) schedule -> In x retailers ->
      In x (map OUTLET_ID data)) ->
  exists routes,
    optimize_routes_for_a_day schedule data depot_coordinates = Ok routes
    /\ forall truck_id retailers,
         In (truck_id, retailers) schedule -> retailers <> [] ->
         exists stops,
           Dict.get truck_id routes = Some (DEPOT :: stops ++ [DEPOT])
           /\ greedy (DEPOT :: retailers ++ [DEPOT])
                (point_distance data depot_coordinates (DEPOT :: retailers ++ [DEPOT]))
                0 (seq 1 (length retailers)) stops.
Proof.
  intros Hnd Hkeys Hids. unfold optimize_routes_for_a_day.
  destruct (route_trucks_each
              (loc_set DEPOT depot_coordinates (set_index data))
              (fun retailers route =>
                 exists stops,
                   route = DEPOT :: stops ++ [DEPOT]
                   /\ greedy (DEPOT :: retailers ++ [DEPOT])
                        (point_distance data depot_coordinates
                           (DEPOT :: retailers ++ [DEPOT]))
                        0 (seq 1 (length retailers)) stops)
              schedule Hkeys) with (optimized_routes := @nil (Z * list Z))
    as [routes [Hrun [_ Hin]]].
  - intros truck retailers Hmem _.
    destruct (route_of_truck_points data depot_coordinates retailers Hnd)
      as [stops [Hroute [Hg _]]]; [intros x Hx; eapply Hids; eauto|].
    eauto.
  - exists routes. split; [exact Hrun|].
    intros truck retailers Hmem Hne.
    destruct (Hin truck retailers Hmem Hne) as [route [Hget [stops [-> Hg]]]].
    eauto.
Qed.

(** Three outlets of which the first is nearest to the depot and the
    second is nearer to the first than the third is: the route visits
    them in that order, whatever the order of the assigned list. *)
Lemma nearest_first_route (coordinates : table) (a b c : Z) (pd pa pb pc : coord) :
  loc_label DEPOT coordinates = Ok [pd] ->
  loc_label a coordinates = Ok [pa] ->
  loc_label b coordinates = Ok [pb] ->
  loc_label c coordinates = Ok [pc] ->
  (euclidean pd pa <? euclidean pd pb)%float = true ->
  (euclidean pd pa <? euclidean pd pc)%float = true ->
  (euclidean pa pb <? euclidean pa pc)%float = true ->
  forall retailers,
    Permutation [a; b; c] retailers ->
    route_of_truck coordinates retailers = Ok [DEPOT; a; b; c; DEPOT].
Proof.
  intros Hd Ha Hb Hc H1 H2 H3 retailers Hp.
  pose proof (ltb_asym _ _ H1) as N1.
  pose proof (ltb_asym _ _ H2) as N2.
  pose proof (ltb_asym _ _ H3) as N3.
  destruct (perm3_cases _ _ _ _ Hp) as [->|[->|[->|[->|[->| ->]]]]];
    unfold route_of_truck; cbn [app loc_list];
    rewrite ?Hd, ?Ha, ?Hb, ?Hc; cbn [bind app length Nat.sub seq];
    cbn -[euclidean].
  all: repeat match goal with
       | |- context [(?u <? ?v)%float] =>
           first [ rewrite H1 | rewrite H2 | rewrite H3
                 | rewrite N1 | rewrite N2 | rewrite N3
                 | destruct (u <? v)%float eqn:? ]; cbn -[euclidean]
       end; try reflexivity.
Qed.

(** The same for the one truck of a day, on the table of the outlets. *)
Lemma nearest_first_day (data : list outlet) (depot_coordinates : coord)
    (A B C : outlet) (truck_id : Z) (retailers : list Z) :
  NoDup (map OUTLET_ID data) ->
  In A data -> In B data -> In C data ->
  OUTLET_ID A <> DEPOT -> OUTLET_ID B <> DEPOT -> OUTLET_ID C <> DEPOT ->
  (euclidean depot_coordinates (LATITUDE A, LONGITUDE A)
   <? euclidean depot_coordinates (LATITUDE B, LONGITUDE B))%float = true ->
  (euclidean depot_coordinates (LATITUDE A, LONGITUDE A)
   <? euclidean depot_coordinates (LATITUDE C, LONGITUDE C))%float = true ->
  (euclidean (LATITUDE A, LONGITUDE A) (LATITUDE B, LONGITUDE B)
   <? euclidean (LATITUDE A, LONGITUDE A) (LATITUDE C, LONGITUDE C))%float = true ->
  Permutation [OUTLET_ID A; OUTLET_ID B; OUTLET_ID C] retailers ->
  optimize_routes_for_a_day [(truck_id, retailers)] data depot_coordinates
  = Ok [(truck_id, [DEPOT; OUTLET_ID A; OUTLET_ID B; OUTLET_ID C; DEPOT])].
Proof.
  intros Hnd HA HB HC IA IB IC H1 H2 H3 Hp.
  assert (Hrow : forall r, In r data -> OUTLET_ID r <> DEPOT ->
             loc_label (OUTLET_ID r) (loc_set DEPOT depot_coordinates (set_index data))
             = Ok [(LATITUDE r, LONGITUDE r)]).
  { intros r Hr Hid. unfold loc_label.
    rewrite filter_loc_set_other by assumption.
    now rewrite filter_set_index. }
  assert (Hdepot : loc_label DEPOT (loc_set DEPOT depot_coordinates (set_index data))
                   = Ok [depot_coordinates]).
  { unfold loc_label. rewrite filter_loc_set_same; [reflexivity|].
    now rewrite set_index_labels. }
  pose proof (nearest_first_route _ _ _ _ _ _ _ _ Hdepot
                (Hrow A HA IA) (Hrow B HB IB) (Hrow C HC IC) H1 H2 H3 retailers Hp)
    as Hroute.
  unfold optimize_routes_for_a_day. cbn [route_trucks].
  destruct retailers as [|x retailers].
  - apply Permutation_length in Hp. discriminate.
  - rewrite Hroute. reflexivity.
Qed.

(** C6, as stated, fails on the code. Outlets 10, 20 and 30 are on one
    line with the depot, at 1, 2 and 3 from it, the second on the other
    side of the depot: after 10 the nearest unvisited outlet is 30 (at 2
    from 10) and not 20 (at 3 from 10), and the route is depot, 10, 30,
    20, depot. *)
Lemma colinear_on_both_sides :
  euclidean origin (1, 0)%float = 1%float
  /\ euclidean origin (-2, 0)%float = 2%float
  /\ euclidean origin (3, 0)%float = 3%float
  /\ optimize_routes_for_a_day [(0, [10; 20; 30])] both_sides origin
     = Ok [(0, [DEPOT; 10; 30; 20; DEPOT])].
Proof. repeat split. Qed.

(** C6, amended. With unique identifiers, each truck's stops follow the
    greedy nearest-neighbour rule under the Euclidean distance of the raw
    coordinates of the table: from the depot, the next stop is always an
    unvisited assigned outlet such that none is strictly nearer to the
    current position, the position of an outlet being its own latitude
    and longitude and the distance the binary64 square root of the sum
    of the squared differences. In particular, for outlets A, B and C
    such that A is nearer to the depot than B and C, and B is nearer to A
    than C is, the route is depot, A, B, C, depot, whatever the order of
    the assigned list; this is the case of outlets on one line with the
    depot and on one side of it, at 1, 2 and 3 from the depot and so with
    B at 1 and C at 2 from A. *)
Theorem nearest_neighbour_order (data : list outlet) (depot_coordinates : coord) :
  NoDup (map OUTLET_ID data) ->
  (forall retailers,
      (forall x, In x retailers -> In x (map OUTLET_ID data)) ->
      exists stops,
        route_of_truck (loc_set DEPOT depot_coordinates (set_index data)) retailers
        = Ok (DEPOT :: stops ++ [DEPOT])
        /\ greedy (DEPOT :: retailers ++ [DEPOT])
                  (point_distance data depot_coordinates (DEPOT :: retailers ++ [DEPOT]))
                  0 (seq 1 (length retailers)) stops)
  /\ (forall r, In r data -> OUTLET_ID r <> DEPOT ->
        point_coordinates data depot_coordinates (OUTLET_ID r)
        = (LATITUDE r, LONGITUDE r))
  /\ (forall u v : coord,
        euclidean u v
        = PrimFloat.sqrt ((fst u - fst v) * (fst u - fst v)
                          + (snd u - snd v) * (snd u - snd v))%float)
  /\ (forall A B C truck_id retailers,
        In A data -> In B data -> In C data ->
        OUTLET_ID A <> DEPOT -> OUTLET_ID B <> DEPOT -> OUTLET_ID C <> DEPOT ->
        (euclidean depot_coordinates (LATITUDE A, LONGITUDE A)
         <? euclidean depot_coordinates (LATITUDE B, LONGITUDE B))%float = true ->
        (euclidean depot_coordinates (LATITUDE A, LONGITUDE A)
         <? euclidean depot_coordinates (LATITUDE C, LONGITUDE C))%float = true ->
        (euclidean (LATITUDE A, LONGITUDE A) (LATITUDE B, LONGITUDE B)
         <? euclidean (LATITUDE A, LONGITUDE A) (LATITUDE C, LONGITUDE C))%float = true ->
        Permutation [OUTLET_ID A; OUTLET_ID B; OUTLET_ID C] retailers ->
        optimize_routes_for_a_day [(truck_id, retailers)] data depot_coordinates
        = Ok [(truck_id, [DEPOT; OUTLET_ID A; OUTLET_ID B; OUTLET_ID C; DEPOT])])
  /\ (forall A B C truck_id retailers,
        In A data -> In B data -> In C data ->
        OUTLET_ID A <> DEPOT -> OUTLET_ID B <> DEPOT -> OUTLET_ID C <> DEPOT ->
        euclidean depot_coordinates (LATITUDE A, LONGITUDE A) = 1%float ->
        euclidean depot_coordinates (LATITUDE B, LONGITUDE B) = 2%float ->
        euclidean depot_coordinates (LATITUDE C, LONGITUDE C) = 3%float ->
        euclidean (LATITUDE A, LONGITUDE A) (LATITUDE B, LONGITUDE B) = 1%float ->
        euclidean (LATITUDE A, LONGITUDE A) (LATITUDE C, LONGITUDE C) = 2%float ->
        Permutation [OUTLET_ID A; OUTLET_ID B; OUTLET_ID C] retailers ->
        optimize_routes_for_a_day [(truck_id, retailers)] data depot_coordinates
        = Ok [(truck_id, [DEPOT; OUTLET_ID A; OUTLET_ID B; OUTLET_ID C; DEPOT])]).
Proof.
  intros Hnd. split; [|split; [|split; [|split]]].
  - intros retailers Hids.
    destruct (route_of_truck_points data depot_coordinates retailers Hnd Hids)
      as [stops [Hroute [Hg _]]].
    eauto.
  - intros r Hr Hid. unfold point_coordinates.
    apply Z.eqb_neq in Hid. rewrite Hid. now apply own_coordinates_row.
  - reflexivity.
  - intros A B C truck retailers. now apply nearest_first_day.
  - intros A B C truck retailers HA HB HC IA IB IC E1 E2 E3 E4 E5.
    apply nearest_first_day; auto.
    + now rewrite E1, E2.
    + now rewrite E1, E3.
    + now rewrite E4, E5.
Qed.

Lemma ray_outlets_unique : NoDup (map OUTLET_ID ray_outlets).
Proof. apply nodupb_NoDup. reflexivity. Defined.

Lemma nearest_neighbour_order_witness :
  optimize_routes_for_a_day [(0, [20; 30; 10])] three_outlets origin
  = Ok [(0, [DEPOT; 10; 20; 30; DEPOT])]
  /\ (euclidean ray_depot (-2, -2)%float = 5%float
      /\ euclidean ray_depot (-5, -6)%float = 10%float
      /\ euclidean ray_depot (-8, -10)%float = 15%float
      /\ optimize_routes_for_a_day [(0, [30; 10; 20])] ray_outlets ray_depot
         = Ok [(0, [DEPOT; 10; 20; 30; DEPOT])]).
Proof.
  split; [|split; [reflexivity|]; split; [reflexivity|]; split; [reflexivity|]].
  - apply (proj2 (proj2 (proj2 (proj2
             (nearest_neighbour_order three_outlets origin three_outlets_unique))))
             (mk_outlet 10 1 0 1) (mk_outlet 20 2 0 2) (mk_outlet 30 3 0 3)
             0 [20; 30; 10]).
    + simpl. auto.
    + simpl. auto.
    + simpl. auto.
    + discriminate.
    + discriminate.
    + discriminate.
    + reflexivity.
    + reflexivity.
    + reflexivity.
    + reflexivity.
    + reflexivity.
    + apply (Permutation_cons_app [20; 30] [] 10). apply Permutation_refl.
  - apply (proj1 (proj2 (proj2 (proj2
             (nearest_neighbour_order ray_outlets ray_depot ray_outlets_unique))))
             (mk_outlet 10 (-2) (-2) 1) (mk_outlet 20 (-5) (-6) 1)
             (mk_outlet 30 (-8) (-10) 1) 0 [30; 10; 20]).
    + simpl. auto.
    + simpl. auto.
    + simpl. auto.
    + discriminate.
    + discriminate.
    + discriminate.
    + reflexivity.
    + reflexivity.
    + reflexivity.
    + symmetry. apply (Permutation_cons_app [10; 20] [] 30). apply Permutation_refl.
Defined.

(** C10. The depot is written -1, and the sequencer resolves it through
    a row keyed -1 that it puts into the coordinate table. With unique
    identifiers, the sequencer takes every route point of every truck for
    its place ([point_coordinates]) and orders the stops by the distances
    of these places. The place of -1 is the depot; the place of an outlet
    whose identifier is not -1 is its own latitude and longitude, in the
    sequencer and in the projector; an outlet whose identifier is -1 is
    taken for the depot, and its own coordinates are not used. *)
Theorem depot_sentinel (data : list outlet) (depot_coordinates : coord)
    (schedule : day_schedule) :
  NoDup (map OUTLET_ID data) ->
  NoDup (Dict.keys schedule) ->
  (forall truck_id retailers x,
      In (truck_id, retailers) schedule -> In x retailers ->
      In x (map OUTLET_ID data)) ->
  DEPOT = -1
  /\ (exists routes,
        optimize_routes_for_a_day schedule data depot_coordinates = Ok routes
        /\ forall truck_id retailers,
             In (truck_id, retailers) schedule -> retailers <> [] ->
             loc_list (DEPOT :: retailers ++ [DEPOT])
               (loc_set DEPOT depot_coordinates (set_index data))
             = Ok (map (point_coordinates data depot_coordinates)
                       (DEPOT :: retailers ++ [DEPOT]))
             /\ exists stops,
                  Dict.get truck_id routes = Some (DEPOT :: stops ++ [DEPOT])
                  /\ greedy (DEPOT :: retailers ++ [DEPOT])
                       (point_distance data depot_coordinates
                          (DEPOT :: retailers ++ [DEPOT]))
                       0 (seq 1 (length retailers)) stops)
  /\ (point_coordinates data depot_coordinates DEPOT = depot_coordinates
      /\ loc_label DEPOT (loc_set DEPOT depot_coordinates (set_index data))
         = Ok [depot_coordinates]
      /\ stop_coords (set_index data) DEPOT = Ok DEPOT_COORDINATES)
  /\ (forall r, In r data -> OUTLET_ID r <> -1 ->
        point_coordinates data depot_coordinates (OUTLET_ID r)
        = (LATITUDE r, LONGITUDE r)
        /\ loc_label (OUTLET_ID r) (loc_set DEPOT depot_coordinates (set_index data))
           = Ok [(LATITUDE r, LONGITUDE r)]
        /\ stop_coords (set_index data) (OUTLET_ID r) = Ok (LATITUDE r, LONGITUDE r))
  /\ (forall r, In r data -> OUTLET_ID r = -1 ->
        own_coordinates data (OUTLET_ID r) = (LATITUDE r, LONGITUDE r)
        /\ point_coordinates data depot_coordinates (OUTLET_ID r) = depot_coordinates
        /\ loc_label (OUTLET_ID r) (loc_set DEPOT depot_coordinates (set_index data))
           = Ok [depot_coordinates]
        /\ stop_coords (set_index data) (OUTLET_ID r) = Ok DEPOT_COORDINATES).
Proof.
  intros Hnd Hkeys Hids.
  assert (Hdepot : loc_label DEPOT (loc_set DEPOT depot_coordinates (set_index data))
                   = Ok [depot_coordinates]).
  { unfold loc_label. rewrite filter_loc_set_same; [reflexivity|].
    now rewrite set_index_labels. }
  split; [reflexivity|]. split; [|split; [|split]].
  - destruct (sequencer_points schedule data depot_coordinates Hnd Hkeys Hids)
      as [routes [Hrun Hall]].
    exists routes. split; [exact Hrun|]. intros truck retailers Hmem Hne. split.
    + apply loc_list_points; auto. intros x [<-|Hx]; auto.
      apply in_app_or in Hx. destruct Hx as [Hx|[<-|[]]]; auto.
      left. eapply Hids; eauto.
    + now apply Hall.
  - repeat split. exact Hdepot.
  - intros r Hr Hid. split; [|split].
    + unfold point_coordinates. replace (OUTLET_ID r =? DEPOT) with false
        by (symmetry; now apply Z.eqb_neq).
      now apply own_coordinates_row.
    + unfold loc_label. rewrite filter_loc_set_other by (unfold DEPOT; congruence).
      rewrite filter_set_index by assumption. reflexivity.
    + unfold stop_coords. destruct (OUTLET_ID r =? -1) eqn:E.
      * apply Z.eqb_eq in E. contradiction.
      * simpl. unfold Dict.lookup.
        rewrite (DictFacts.In_get (OUTLET_ID r) (LATITUDE r, LONGITUDE r)).
        -- reflexivity.
        -- unfold Dict.keys. now rewrite set_index_labels.
        -- unfold set_index. apply in_map_iff. exists r. split; auto.
  - intros r Hr Hid. split; [now apply own_coordinates_row|].
    rewrite Hid. repeat split. exact Hdepot.
Qed.

Lemma depot_sentinel_witness :
  optimize_routes_for_a_day [(0, [10; -1])] outlet_named_depot origin
  = Ok [(0, [-1; -1; 10; -1])]
  /\ own_coordinates outlet_named_depot (-1) = (5, 5)%float
  /\ point_coordinates outlet_named_depot origin (-1) = origin
  /\ loc_label (-1) (loc_set DEPOT origin (set_index outlet_named_depot)) = Ok [origin]
  /\ loc_label 10 (loc_set DEPOT origin (set_index outlet_named_depot))
     = Ok [(1, 0)%float]
  /\ stop_coords (set_index outlet_named_depot) (-1) = Ok DEPOT_COORDINATES.
Proof.
  destruct (depot_sentinel outlet_named_depot origin [(0, [10; -1])]
              (nodupb_NoDup [-1; 10] eq_refl) (nodupb_NoDup [0] eq_refl))
    as [_ [[routes [Hrun _]] [_ [Hother Hsame]]]].
  - simpl. intros truck_id retailers x [H|[]] Hx. inversion H. subst.
    simpl in Hx. intuition.
  - destruct (Hsame (mk_outlet (-1) 5 5 1) ltac:(simpl; auto) eq_refl)
      as [H0 [H1 [H2 H3]]].
    destruct (Hother (mk_outlet 10 1 0 1) ltac:(simpl; auto) ltac:(discriminate))
      as [_ [H4 _]].
    split; [reflexivity|].
    exact (conj H0 (conj H1 (conj H2 (conj H4 H3)))).
Defined.

(** * Further properties *)

(** ** Dictionaries, continued *)

Module DictMore.

Lemma In_set {V : Type} (k k' : Z) (v v' : V) (d : Dict.t V) :
  In (k', v') (Dict.set k v d) -> (k' = k /\ v' = v) \/ In (k', v') d.
Proof.
  induction d as [|[k0 v0] d IH]; simpl.
  - intros [H|[]]. inversion H. now left.
  - destruct (k0 =? k) eqn:E; simpl.
    + apply Z.eqb_eq in E. subst k0. intros [H|H].
      * inversion H. now left.
      * right. now right.
    + intros [H|H].
      * right. now left.
      * destruct (IH H) as [Hl|Hr]; [now left | right; now right].
Qed.

Lemma get_Some_keys {V : Type} (k : Z) (v : V) (d : Dict.t V) :
  Dict.get k d = Some v -> In k (Dict.keys d).
Proof.
  induction d as [|[k0 v0] d IH]; simpl; [discriminate|].
  destruct (k0 =? k) eqn:E.
  - apply Z.eqb_eq in E. now left.
  - intros H. right. now apply IH.
Qed.

Lemma keys_get {V : Type} (k : Z) (d : Dict.t V) :
  In k (Dict.keys d) -> exists v, Dict.get k d = Some v.
Proof.
  induction d as [|[k0 v0] d IH]; simpl; [contradiction|].
  destruct (k0 =? k) eqn:E; [eauto|].
  apply Z.eqb_neq in E. intros [H|H]; [contradiction | now apply IH].
Qed.

Lemma keys_set_present {V : Type} (k : Z) (v : V) (d : Dict.t V) :
  In k (Dict.keys d) -> Dict.keys (Dict.set k v d) = Dict.keys d.
Proof.
  induction d as [|[k0 v0] d IH]; simpl; [contradiction|].
  destruct (k0 =? k) eqn:E; simpl; auto.
  apply Z.eqb_neq in E. intros [H|H]; [contradiction|]. now rewrite IH.
Qed.

Lemma keys_set_NoDup {V : Type} (k : Z) (v : V) (d : Dict.t V) :
  NoDup (Dict.keys d) -> NoDup (Dict.keys (Dict.set k v d)).
Proof.
  intros Hnd. destruct (in_dec Z.eq_dec k (Dict.keys d)) as [Hin|Hout].
  - now rewrite keys_set_present.
  - rewrite set_fresh by assumption. unfold Dict.keys in *. rewrite map_app. simpl.
    apply NoDup_app_remove_l with (l := []). simpl.
    apply Permutation_NoDup with (l := k :: map fst d).
    + apply Permutation_cons_append.
    + now constructor.
Qed.

End DictMore.

(** ** Scheduler: what a run keeps true *)

Lemma append_visit_inv ws day truck_id retailer_id ws' :
  append_visit ws day truck_id retailer_id = Ok ws' ->
  exists trucks,
    Dict.get day ws = Some trucks
    /\ ws' = Dict.set day
               (Dict.set truck_id
                  (default_list (Dict.get truck_id trucks) ++ [retailer_id]) trucks) ws.
Proof.
  unfold append_visit. intros H. apply bind_ok in H. destruct H as [trucks [Hl H]].
  apply lookup_get in Hl. inversion H. eauto.
Qed.


Lemma append_visit_keys ws day truck_id retailer_id ws' :
  append_visit ws day truck_id retailer_id = Ok ws' -> Dict.keys ws' = Dict.keys ws.
Proof.
  intros H. apply append_visit_inv in H. destruct H as [trucks [Hg ->]].
  apply DictMore.keys_set_present. eapply DictMore.get_Some_keys; eauto.
Qed.

Lemma randint_range (rnd : nat -> nat) (k : nat) (n t : Z) :
  randint rnd k 0 (n - 1) = Ok t -> 0 <= t < n.
Proof.
  unfold randint. destruct (n - 1 <? 0) eqn:E; [discriminate|].
  apply Z.ltb_ge in E. intros H. inversion H. subst t.
  pose proof (Z.mod_pos_bound (Z.of_nat (rnd k)) (n - 1 - 0 + 1) ltac:(lia)). lia.
Qed.




Section Preservation.

Variable rnd : nat -> nat.
Variable day_trucks : list Z.
Variable P : weekly_schedule -> Prop.

(** A property kept by every appended visit of [retailer_id] is kept by
    the whole loop. *)
Lemma loop_preserves (retailer_id : Z) :
  (forall ws day trucks truck_id ws',
      P ws ->
      list_index day_trucks day = Ok trucks ->
      0 <= truck_id < trucks ->
      append_visit ws day truck_id retailer_id = Ok ws' ->
      P ws') ->
  forall n available_days k ws st,
    P ws ->
    add_to_schedule_loop rnd n retailer_id day_trucks available_days k ws = Ok st ->
    P (snd st).
Proof.
  intros Hstep. induction n as [|n IH]; intros av k ws st HP H.
  - simpl in H. inversion H. exact HP.
  - apply loop_step_inv in H.
    destruct H as (day & trucks & truck & ws1 & _ & _ & Hi & Hr & Ha & Hl).
    apply (IH _ _ _ _ (Hstep _ _ _ _ _ HP Hi (randint_range _ _ _ _ Hr) Ha) Hl).
Qed.

Lemma rows_preserves (rows : list outlet) :
  (forall r, In r rows -> 0 < FREQUENCY r ->
     forall ws day trucks truck_id ws',
       P ws ->
       list_index day_trucks day = Ok trucks ->
       0 <= truck_id < trucks ->
       append_visit ws day truck_id (OUTLET_ID r) = Ok ws' ->
       P ws') ->
  forall k ws st,
    P ws -> schedule_rows rnd rows day_trucks k ws = Ok st -> P (snd st).
Proof.
  induction rows as [|row rows IH]; intros Hstep k ws st HP H.
  - simpl in H. inversion H. exact HP.
  - simpl in H. apply bind_ok in H. destruct H as [st1 [Ha Hr]].
    apply (IH (fun r Hr' => Hstep r (or_intror Hr')) _ _ _) in Hr; auto.
    unfold add_to_schedule in Ha.
    destruct (Z.to_nat (FREQUENCY row)) as [|n] eqn:En.
    + simpl in Ha. inversion Ha. exact HP.
    + eapply loop_preserves; [|exact HP|exact Ha].
      apply Hstep; [now left | lia].
Qed.

End Preservation.

Lemma get_empty_week (d : Z) (schedule : day_schedule) :
  Dict.get d empty_week = Some schedule -> schedule = [].
Proof.
  unfold empty_week, range5. cbn [map Dict.get].
  repeat (match goal with |- context [?a =? d] => destruct (a =? d) end;
          [intros H; inversion H; reflexivity|]).
  discriminate.
Qed.

Lemma append_visit_get ws day truck_id retailer_id ws' :
  append_visit ws day truck_id retailer_id = Ok ws' ->
  forall d schedule,
    Dict.get d ws' = Some schedule ->
    (d <> day /\ Dict.get d ws = Some schedule)
    \/ (d = day /\ exists trucks,
          Dict.get day ws = Some trucks
          /\ schedule = Dict.set truck_id
                          (default_list (Dict.get truck_id trucks) ++ [retailer_id])
                          trucks).
Proof.
  intros H d schedule Hg. apply append_visit_inv in H. destruct H as [trucks [Hday ->]].
  destruct (Z.eq_dec d day) as [->|Hne].
  - right. split; auto. rewrite DictFacts.get_set_eq in Hg. inversion Hg. eauto.
  - left. split; auto. rewrite DictFacts.get_set_ne in Hg by congruence. exact Hg.
Qed.

Section SchedulerShape.

Variable rnd : nat -> nat.

(** The days stay the five days, the trucks of a day stay distinct, and
    no truck is listed without an outlet. *)
Lemma rows_shape (rows : list outlet) (day_trucks : list Z) k ws st :
  (Dict.keys ws = range5
   /\ forall d schedule,
       Dict.get d ws = Some schedule ->
       NoDup (Dict.keys schedule)
       /\ forall truck_id retailers, In (truck_id, retailers) schedule -> retailers <> []) ->
  schedule_rows rnd rows day_trucks k ws = Ok st ->
  Dict.keys (snd st) = range5
  /\ forall d schedule,
      Dict.get d (snd st) = Some schedule ->
      NoDup (Dict.keys schedule)
      /\ forall truck_id retailers, In (truck_id, retailers) schedule -> retailers <> [].
Proof.
  intros HP H.
  apply (rows_preserves rnd day_trucks
           (fun w => Dict.keys w = range5
                     /\ forall d schedule,
                         Dict.get d w = Some schedule ->
                         NoDup (Dict.keys schedule)
                         /\ forall truck_id retailers,
                             In (truck_id, retailers) schedule -> retailers <> [])
           rows) with (k := k) (ws := ws); auto.
  intros r _ _ ws0 day trucks truck ws' [Hkeys Hshape] _ _ Ha. split.
  - rewrite (append_visit_keys _ _ _ _ _ Ha). exact Hkeys.
  - intros d schedule Hg.
    destruct (append_visit_get _ _ _ _ _ Ha d schedule Hg)
      as [[_ Hold]|[_ [old [Hold ->]]]].
    + now apply (Hshape d).
    + destruct (Hshape _ _ Hold) as [Hnd Hne]. split.
      * now apply DictMore.keys_set_NoDup.
      * intros t l Hin. apply DictMore.In_set in Hin.
        destruct Hin as [[_ ->]|Hin]; [|now apply (Hne t)].
        intros Hnil. apply app_eq_nil in Hnil. destruct Hnil; discriminate.
Qed.

(** Every listed truck index is one of the day's trucks. *)
Lemma rows_truck_range (rows : list outlet) (day_trucks : list Z) k ws st :
  (forall d schedule truck_id retailers,
      Dict.get d ws = Some schedule -> In (truck_id, retailers) schedule ->
      exists n, list_index day_trucks d = Ok n /\ 0 <= truck_id < n) ->
  schedule_rows rnd rows day_trucks k ws = Ok st ->
  forall d schedule truck_id retailers,
    Dict.get d (snd st) = Some schedule -> In (truck_id, retailers) schedule ->
    exists n, list_index day_trucks d = Ok n /\ 0 <= truck_id < n.
Proof.
  intros HP H.
  apply (rows_preserves rnd day_trucks
           (fun w => forall d schedule truck_id retailers,
                       Dict.get d w = Some schedule ->
                       In (truck_id, retailers) schedule ->
                       exists n, list_index day_trucks d = Ok n /\ 0 <= truck_id < n)
           rows) with (k := k) (ws := ws); auto.
  intros r _ _ ws0 day trucks truck ws' Hold Hi Ht Ha d schedule t l Hg Hin.
  destruct (append_visit_get _ _ _ _ _ Ha d schedule Hg)
    as [[_ Hg0]|[-> [old [Hg0 ->]]]].
  - eapply Hold; eauto.
  - apply DictMore.In_set in Hin. destruct Hin as [[-> _]|Hin].
    + eauto.
    + eapply Hold; eauto.
Qed.

(** Only outlets of the processed rows that need a visit are assigned. *)
Lemma rows_only_outlets (rows : list outlet) (day_trucks : list Z) k ws st :
  (forall x d, on_day x d ws = true ->
               exists r, In r rows /\ OUTLET_ID r = x /\ 0 < FREQUENCY r) ->
  schedule_rows rnd rows day_trucks k ws = Ok st ->
  forall x d, on_day x d (snd st) = true ->
              exists r, In r rows /\ OUTLET_ID r = x /\ 0 < FREQUENCY r.
Proof.
  intros HP H.
  apply (rows_preserves rnd day_trucks
           (fun w => forall x d, on_day x d w = true ->
                       exists r, In r rows /\ OUTLET_ID r = x /\ 0 < FREQUENCY r)
           rows) with (k := k) (ws := ws); auto.
  intros r Hr Hf ws0 day trucks truck ws' Hold _ _ Ha x d Hon.
  rewrite (append_visit_on_day _ _ _ _ _ Ha) in Hon.
  apply orb_true_iff in Hon. destruct Hon as [Hon|Hon]; [now apply (Hold x d)|].
  apply andb_true_iff in Hon. destruct Hon as [_ Hx]. apply Z.eqb_eq in Hx.
  exists r. auto.
Qed.



End SchedulerShape.

Lemma In_sorted (data : list outlet) (r : outlet) :
  In r (sort_values_desc data) <-> In r data.
Proof.
  split; apply Permutation_in;
    [apply sort_values_desc_perm | symmetry; apply sort_values_desc_perm].
Qed.


(** ** Scheduler: further results *)



(** X2. A returned schedule lists exactly the days 0 to 4, in order; the
    trucks listed for a day are distinct, and a truck is listed only with
    at least one outlet. *)
Theorem schedule_shape (rnd : nat -> nat) (data : list outlet)
    (num_trucks_per_day : list Z) (k : nat) (st : nat * weekly_schedule) :
  create_weekly_schedule_with_dynamic_trucks rnd data num_trucks_per_day k = Ok st ->
  Dict.keys (snd st) = [0; 1; 2; 3; 4]
  /\ forall d schedule,
      Dict.get d (snd st) = Some schedule ->
      NoDup (Dict.keys schedule)
      /\ forall truck_id retailers, In (truck_id, retailers) schedule -> retailers <> [].
Proof.
  intros H. unfold create_weekly_schedule_with_dynamic_trucks in H.
  eapply rows_shape; [|exact H]. split; [reflexivity|].
  intros d schedule Hg. apply get_empty_week in Hg. subst schedule.
  split; [constructor | contradiction].
Qed.

Lemma schedule_shape_witness :
  Dict.keys (snd counting_week) = [0; 1; 2; 3; 4]
  /\ forall d schedule,
      Dict.get d (snd counting_week) = Some schedule ->
      NoDup (Dict.keys schedule)
      /\ forall truck_id retailers, In (truck_id, retailers) schedule -> retailers <> [].
Proof.
  apply (schedule_shape counting three_outlets two_trucks_a_day 0 counting_week eq_refl).
Defined.

(** X3. In a returned schedule every truck index listed for a day [d]
    lies in [0, num_trucks_per_day[d]). *)
Theorem trucks_in_range (rnd : nat -> nat) (data : list outlet)
    (num_trucks_per_day : list Z) (k : nat) (st : nat * weekly_schedule) :
  create_weekly_schedule_with_dynamic_trucks rnd data num_trucks_per_day k = Ok st ->
  forall d schedule truck_id retailers,
    Dict.get d (snd st) = Some schedule -> In (truck_id, retailers) schedule ->
    exists n, list_index num_trucks_per_day d = Ok n /\ 0 <= truck_id < n.
Proof.
  intros H. unfold create_weekly_schedule_with_dynamic_trucks in H.
  eapply rows_truck_range; [|exact H].
  intros d schedule t l Hg Hin. apply get_empty_week in Hg. subst schedule. contradiction.
Qed.

Lemma trucks_in_range_witness :
  exists n, list_index two_trucks_a_day 3 = Ok n /\ 0 <= 1 < n.
Proof.
  apply (trucks_in_range counting three_outlets two_trucks_a_day 0 counting_week eq_refl
           3 [(1, [30])] 1 [30] eq_refl).
  simpl. auto.
Defined.

(** X4. Every identifier in a returned schedule belongs to a row of the
    outlet table whose frequency is positive: an outlet that needs no
    visit is never assigned, and nothing foreign is. The identifiers of
    the table are integers that binary64 holds. *)
Theorem only_outlets_to_visit (rnd : nat -> nat) (data : list outlet)
    (num_trucks_per_day : list Z) (k : nat) (st : nat * weekly_schedule) :
  column_exact OUTLET_ID data ->
  create_weekly_schedule_with_dynamic_trucks rnd data num_trucks_per_day k = Ok st ->
  forall x d, on_day x d (snd st) = true ->
              exists r, In r data /\ OUTLET_ID r = x /\ 0 < FREQUENCY r.
Proof.
  intros _ H x d Hon. unfold create_weekly_schedule_with_dynamic_trucks in H.
  destruct (rows_only_outlets rnd (sort_values_desc data) num_trucks_per_day k
              empty_week st) with (x := x) (d := d) as [r [Hr Hrest]]; auto.
  - intros y e Hy. rewrite on_day_empty_week in Hy. discriminate.
  - exists r. split; [now apply In_sorted | exact Hrest].
Qed.

Lemma only_outlets_to_visit_witness :
  exists r, In r three_outlets /\ OUTLET_ID r = 20 /\ 0 < FREQUENCY r.
Proof.
  apply (only_outlets_to_visit counting three_outlets two_trucks_a_day 0 counting_week
           (proj1 three_outlets_exact) eq_refl 20 4 eq_refl).
Defined.

(** X5. An outlet is assigned on at most three different days of a
    returned schedule, whatever its frequency: its days are pairwise
    non-consecutive among five. Identifiers are unique and are integers
    that binary64 holds. *)
Theorem at_most_three_days (rnd : nat -> nat) (data : list outlet)
    (num_trucks_per_day : list Z) (k : nat) (st : nat * weekly_schedule) (x : Z) :
  NoDup (map OUTLET_ID data) ->
  column_exact OUTLET_ID data ->
  create_weekly_schedule_with_dynamic_trucks rnd data num_trucks_per_day k = Ok st ->
  (length (days_of x (snd st)) <= 3)%nat.
Proof.
  intros Hnd _ H. unfold create_weekly_schedule_with_dynamic_trucks in H.
  assert (Hadj : forall d, on_day x d (snd st) = true -> on_day x (d + 1) (snd st) = false).
  { intros d. eapply schedule_rows_on_day; [ | | | exact H].
    - eapply Permutation_NoDup; [|exact Hnd].
      apply Permutation_map. symmetry. apply sort_values_desc_perm.
    - intros. apply on_day_empty_week.
    - intros y e Hy. rewrite on_day_empty_week in Hy. discriminate. }
  pose proof (Hadj 0) as H0. pose proof (Hadj 1) as H1.
  pose proof (Hadj 2) as H2. pose proof (Hadj 3) as H3.
  change (0 + 1) with 1 in H0. change (1 + 1) with 2 in H1.
  change (2 + 1) with 3 in H2. change (3 + 1) with 4 in H3.
  unfold days_of, range5. cbn [filter].
  destruct (on_day x 0 (snd st)), (on_day x 1 (snd st)), (on_day x 2 (snd st)),
    (on_day x 3 (snd st)), (on_day x 4 (snd st));
    simpl; try lia;
    try (specialize (H0 eq_refl)); try (specialize (H1 eq_refl));
    try (specialize (H2 eq_refl)); try (specialize (H3 eq_refl)); discriminate.
Qed.

Lemma at_most_three_days_witness :
  days_of 30 (snd counting_week) = [0; 3]
  /\ (length (days_of 30 (snd counting_week)) <= 3)%nat.
Proof.
  split; [reflexivity|].
  apply (at_most_three_days counting three_outlets two_trucks_a_day 0 counting_week 30
           three_outlets_unique (proj1 three_outlets_exact) eq_refl).
Defined.

Lemma holds_zcount (x : Z) (l : list Z) : holds x l = true <-> (0 < zcount x l)%nat.
Proof.
  unfold holds, zcount. rewrite existsb_exists. split.
  - intros [y [Hy Heq]]. apply Z.eqb_eq in Heq. subst y.
    apply (count_occ_In Z.eq_dec) in Hy. lia.
  - intros Hc. exists x. split; [|apply Z.eqb_refl].
    apply (count_occ_In Z.eq_dec). lia.
Qed.

Lemma on_day_day_count (x d : Z) (ws : weekly_schedule) :
  on_day x d ws = true <-> (0 < day_count x d ws)%nat.
Proof.
  unfold on_day, day_count, trucks_count.
  induction (Dict.values (day_of d ws)) as [|l ls IH]; simpl.
  - split; [discriminate | lia].
  - rewrite orb_true_iff, IH, holds_zcount. lia.
Qed.

Lemma week_count_by_day (x : Z) (ws : weekly_schedule) :
  Dict.keys ws = range5 ->
  week_count x ws
  = (day_count x 0 ws + day_count x 1 ws + day_count x 2 ws
     + day_count x 3 ws + day_count x 4 ws)%nat.
Proof.
  intros Hkeys.
  destruct ws as [|[k0 v0] [|[k1 v1] [|[k2 v2] [|[k3 v3] [|[k4 v4] [|? ?]]]]]];
    try discriminate.
  inversion Hkeys. subst. unfold week_count, day_count, day_of. simpl. lia.
Qed.

Lemma schedule_no_adjacent (rnd : nat -> nat) (data : list outlet)
    (num_trucks_per_day : list Z) (k : nat) (st : nat * weekly_schedule) :
  NoDup (map OUTLET_ID data) ->
  create_weekly_schedule_with_dynamic_trucks rnd data num_trucks_per_day k = Ok st ->
  forall x d, on_day x d (snd st) = true -> on_day x (d + 1) (snd st) = false.
Proof.
  intros Hnd H. unfold create_weekly_schedule_with_dynamic_trucks in H.
  eapply schedule_rows_on_day; [ | | | exact H].
  - eapply Permutation_NoDup; [|exact Hnd].
    apply Permutation_map. symmetry. apply sort_values_desc_perm.
  - intros. apply on_day_empty_week.
  - intros y e Hy. rewrite on_day_empty_week in Hy. discriminate.
Qed.

Lemma schedule_week_count (rnd : nat -> nat) (data : list outlet)
    (num_trucks_per_day : list Z) (k : nat) (st : nat * weekly_schedule) :
  NoDup (map OUTLET_ID data) ->
  create_weekly_schedule_with_dynamic_trucks rnd data num_trucks_per_day k = Ok st ->
  forall r, In r data -> week_count (OUTLET_ID r) (snd st) = Z.to_nat (FREQUENCY r).
Proof.
  intros Hnd H r Hr. unfold create_weekly_schedule_with_dynamic_trucks in H.
  apply schedule_rows_week_count in H.
  - destruct H as [Hin _]. rewrite Hin by now apply In_sorted.
    now rewrite week_count_empty_week.
  - eapply Permutation_NoDup; [|exact Hnd].
    apply Permutation_map. symmetry. apply sort_values_desc_perm.
Qed.

(** X6. An outlet that needs four visits or more is assigned twice or
    more to one day in every schedule the scheduler returns: the visits
    fall on at most three days. Identifiers are unique and are integers
    that binary64 holds. *)
Theorem four_visits_double_up (rnd : nat -> nat) (data : list outlet)
    (num_trucks_per_day : list Z) (k : nat) (st : nat * weekly_schedule)
    (r : outlet) :
  NoDup (map OUTLET_ID data) ->
  column_exact OUTLET_ID data ->
  create_weekly_schedule_with_dynamic_trucks rnd data num_trucks_per_day k = Ok st ->
  In r data -> 4 <= FREQUENCY r ->
  exists d, In d range5 /\ (2 <= day_count (OUTLET_ID r) d (snd st))%nat.
Proof.
  intros Hnd _ H Hr Hf.
  pose proof (schedule_week_count _ _ _ _ _ Hnd H r Hr) as Hweek.
  assert (Hkeys : Dict.keys (snd st) = range5).
  { unfold create_weekly_schedule_with_dynamic_trucks in H.
    eapply rows_shape; [|exact H]. split; [reflexivity|].
    intros d schedule Hg. apply get_empty_week in Hg. subst schedule.
    split; [constructor | contradiction]. }
  rewrite (week_count_by_day _ _ Hkeys) in Hweek.
  pose proof (schedule_no_adjacent _ _ _ _ _ Hnd H (OUTLET_ID r)) as Hadj.
  assert (Hpair : forall d, day_count (OUTLET_ID r) d (snd st) = 0%nat
                            \/ day_count (OUTLET_ID r) (d + 1) (snd st) = 0%nat).
  { intros d. destruct (day_count (OUTLET_ID r) d (snd st)) as [|c] eqn:E; [now left|].
    right. assert (Hon : on_day (OUTLET_ID r) d (snd st) = true)
      by (apply on_day_day_count; lia).
    apply Hadj in Hon.
    destruct (day_count (OUTLET_ID r) (d + 1) (snd st)) as [|c'] eqn:E'; auto.
    assert (on_day (OUTLET_ID r) (d + 1) (snd st) = true)
      by (apply on_day_day_count; lia).
    congruence. }
  pose proof (Hpair 0) as P0. pose proof (Hpair 1) as P1.
  pose proof (Hpair 2) as P2. pose proof (Hpair 3) as P3.
  change (0 + 1) with 1 in P0. change (1 + 1) with 2 in P1.
  change (2 + 1) with 3 in P2. change (3 + 1) with 4 in P3.
  assert (Hfreq : (4 <= Z.to_nat (FREQUENCY r))%nat) by lia.
  destruct (le_lt_dec 2 (day_count (OUTLET_ID r) 0 (snd st)));
    [exists 0; split; [simpl; auto | assumption] |].
  destruct (le_lt_dec 2 (day_count (OUTLET_ID r) 1 (snd st)));
    [exists 1; split; [simpl; auto | assumption] |].
  destruct (le_lt_dec 2 (day_count (OUTLET_ID r) 2 (snd st)));
    [exists 2; split; [simpl; auto | assumption] |].
  destruct (le_lt_dec 2 (day_count (OUTLET_ID r) 3 (snd st)));
    [exists 3; split; [simpl; auto | assumption] |].
  destruct (le_lt_dec 2 (day_count (OUTLET_ID r) 4 (snd st)));
    [exists 4; split; [simpl; auto 6 | assumption] |].
  exfalso. lia.
Qed.

Lemma four_visits_exact : column_exact OUTLET_ID four_visits.
Proof.
  repeat (apply Forall_cons || apply Forall_nil); unfold exact_float64; simpl; lia.
Defined.

Lemma four_visits_double_up_witness :
  exists d, In d range5 /\ (2 <= day_count 9 d (snd four_visits_week))%nat.
Proof.
  apply (four_visits_double_up (always 2) four_visits one_truck_a_day 0
           four_visits_week (mk_outlet 9 1 0 4) (nodupb_NoDup [9] eq_refl)
           four_visits_exact eq_refl).
  - simpl. auto.
  - simpl. lia.
Defined.

(** ** Sequencer: failures and the shape of the result *)

Lemma loc_set_labels_inv (l : Z) (v : coord) (t : table) (x : Z) :
  In x (map fst (loc_set l v t)) -> In x (map fst t) \/ x = l.
Proof.
  unfold loc_set. destruct (existsb (has_label l) t).
  - rewrite map_map. intros H. apply in_map_iff in H. destruct H as [row [<- Hrow]].
    left. destruct (has_label l row); simpl; now apply in_map.
  - rewrite map_app. intros H. apply in_app_or in H. destruct H as [H|[<-|[]]]; auto.
Qed.

Lemma loc_label_raise (label : Z) (t : table) (e : error) :
  loc_label label t = Raise e -> e = KeyError label /\ ~ In label (map fst t).
Proof.
  unfold loc_label. destruct (filter (has_label label) t) as [|row rows] eqn:E;
    [|discriminate].
  intros H. inversion H. split; [reflexivity|].
  intros Hin. apply in_map_iff in Hin. destruct Hin as [row [Hl Hrow]].
  assert (Hf : In row (filter (has_label label) t))
    by (apply filter_In; split; auto; now apply has_label_iff).
  rewrite E in Hf. contradiction.
Qed.

Lemma loc_label_present (label : Z) (t : table) (rows : list coord) :
  loc_label label t = Ok rows -> In label (map fst t).
Proof.
  unfold loc_label. destruct (filter (has_label label) t) as [|row more] eqn:E;
    [discriminate|].
  intros _. assert (Hf : In row (filter (has_label label) t)) by (rewrite E; now left).
  apply filter_In in Hf. destruct Hf as [Hrow Hl]. apply has_label_iff in Hl.
  rewrite <- Hl. now apply in_map.
Qed.

(** [loc] fails exactly on a label the table does not have. *)
Lemma loc_list_raise (labels : list Z) (t : table) (e : error) :
  loc_list labels t = Raise e ->
  exists label, e = KeyError label /\ In label labels /\ ~ In label (map fst t).
Proof.
  induction labels as [|l labels IH]; simpl; [discriminate|].
  destruct (loc_label l t) as [rows|e0] eqn:El; simpl.
  - destruct (loc_list labels t) as [rest|e1] eqn:Er; simpl; [discriminate|].
    intros H. inversion H. subst e1.
    destruct (IH eq_refl) as [label [He [Hin Hout]]]. exists label. auto.
  - intros H. inversion H. subst e0. apply loc_label_raise in El.
    destruct El as [-> Hout]. exists l. auto.
Qed.

Lemma loc_list_present (labels : list Z) (t : table) (route_coords : list coord) :
  loc_list labels t = Ok route_coords -> forall x, In x labels -> In x (map fst t).
Proof.
  revert route_coords. induction labels as [|l labels IH]; intros rc H x Hx;
    [contradiction|].
  simpl in H. apply bind_ok in H. destruct H as [rows [Hrows H]].
  apply bind_ok in H. destruct H as [rest [Hrest _]].
  destruct Hx as [<-|Hx].
  - eapply loc_label_present; eauto.
  - eapply IH; eauto.
Qed.

Lemma route_of_truck_raise (coordinates : table) (retailers : list Z) (e : error) :
  route_of_truck coordinates retailers = Raise e ->
  loc_list (DEPOT :: retailers ++ [DEPOT]) coordinates = Raise e.
Proof.
  unfold route_of_truck.
  change ([DEPOT] ++ retailers ++ [DEPOT]) with (DEPOT :: retailers ++ [DEPOT]).
  destruct (loc_list (DEPOT :: retailers ++ [DEPOT]) coordinates); cbn [bind];
    intros H; [discriminate | inversion H; reflexivity].
Qed.

Lemma route_of_truck_ok (coordinates : table) (retailers : list Z) (route : list Z) :
  route_of_truck coordinates retailers = Ok route ->
  (exists stops, route = DEPOT :: stops ++ [DEPOT] /\ Permutation stops retailers)
  /\ forall x, In x retailers -> In x (map fst coordinates).
Proof.
  intros H.
  destruct (loc_list (DEPOT :: retailers ++ [DEPOT]) coordinates) as [rc|e] eqn:Hloc.
  - destruct (route_of_truck_spec coordinates retailers rc Hloc)
      as [stops [Hroute [_ Hperm]]].
    rewrite Hroute in H. inversion H. split; [eauto|].
    intros x Hx. eapply loc_list_present; [exact Hloc|].
    right. apply in_or_app. now left.
  - unfold route_of_truck in H.
    change ([DEPOT] ++ retailers ++ [DEPOT]) with (DEPOT :: retailers ++ [DEPOT]) in H.
    rewrite Hloc in H. discriminate.
Qed.

(** The routes of a day, truck by truck: one route per truck that has
    outlets, under the same truck index and in the order of the schedule. *)
Lemma route_trucks_shape (coordinates : table) (items : day_schedule) :
  forall optimized_routes routes,
    NoDup (Dict.keys items) ->
    (forall t, In t (Dict.keys items) -> ~ In t (Dict.keys optimized_routes)) ->
    route_trucks coordinates items optimized_routes = Ok routes ->
    exists outs,
      routes = optimized_routes ++ outs
      /\ Forall2 (fun item out =>
                    fst out = fst item
                    /\ route_of_truck coordinates (snd item) = Ok (snd out))
                 (loaded items) outs.
Proof.
  induction items as [|[t l] items IH]; intros acc routes Hnd Hfresh H.
  - simpl in H. inversion H. exists []. rewrite app_nil_r.
    split; [reflexivity | constructor].
  - inversion Hnd as [|? ? Hnot Hnd']. subst. cbn [route_trucks] in H.
    destruct l as [|r0 l].
    + cbn [loaded filter snd]. apply IH; auto.
      intros t' Ht'. apply Hfresh. now right.
    + apply bind_ok in H. destruct H as [route [Hroute H]].
      rewrite set_fresh in H by (apply Hfresh; now left).
      apply IH in H; auto.
      * destruct H as [outs [-> HF]]. exists ((t, route) :: outs).
        rewrite <- app_assoc. split; [reflexivity|].
        cbn [loaded filter snd]. constructor; auto.
      * intros t' Ht'. unfold Dict.keys. rewrite map_app, in_app_iff. simpl.
        intros [Hin|[<-|[]]].
        -- apply (Hfresh t'); [now right | exact Hin].
        -- contradiction.
Qed.

(** X7. If a truck is assigned an identifier that is neither in the
    outlet table nor -1, the sequencer raises [KeyError] for an assigned
    identifier of that kind and returns no route at all. *)
Theorem unknown_outlet_key_error (schedule : day_schedule) (data : list outlet)
    (depot_coordinates : coord) :
  (exists truck_id retailers x,
      In (truck_id, retailers) schedule /\ In x retailers
      /\ ~ In x (map OUTLET_ID data) /\ x <> -1) ->
  exists label,
    optimize_routes_for_a_day schedule data depot_coordinates = Raise (KeyError label)
    /\ ~ In label (map OUTLET_ID data) /\ label <> -1
    /\ exists truck_id retailers, In (truck_id, retailers) schedule /\ In label retailers.
Proof.
  intros (truck & l & x & Hmem & Hx & Hout & Hne).
  unfold optimize_routes_for_a_day.
  set (coordinates := loc_set DEPOT depot_coordinates (set_index data)).
  assert (Hlabels : forall y, In y (map fst coordinates) ->
                              In y (map OUTLET_ID data) \/ y = -1).
  { intros y Hy. apply loc_set_labels_inv in Hy. now rewrite set_index_labels in Hy. }
  generalize (@nil (Z * list Z)) as acc.
  induction schedule as [|[t0 l0] items IH]; intros acc; [contradiction|].
  cbn [route_trucks]. destruct l0 as [|r0 l0].
  - destruct Hmem as [Heq|Hmem]; [inversion Heq; subst; contradiction|].
    destruct (IH Hmem acc) as [label [Hrun [H1 [H2 [t' [l' [H3 H4]]]]]]].
    exists label. repeat split; auto. exists t', l'. split; [now right | exact H4].
  - destruct (route_of_truck coordinates (r0 :: l0)) as [route|e] eqn:Hroute; cbn [bind].
    + destruct Hmem as [Heq|Hmem].
      * inversion Heq. subst. apply route_of_truck_ok in Hroute.
        destruct Hroute as [_ Hall]. destruct (Hlabels x (Hall x Hx)); contradiction.
      * destruct (IH Hmem (Dict.set t0 route acc))
          as [label [Hrun [H1 [H2 [t' [l' [H3 H4]]]]]]].
        exists label. repeat split; auto. exists t', l'. split; [now right | exact H4].
    + apply route_of_truck_raise in Hroute. apply loc_list_raise in Hroute.
      destruct Hroute as [label [-> [Hin Hmiss]]].
      assert (Hlab : ~ In label (map OUTLET_ID data) /\ label <> -1).
      { split; intros Hc; apply Hmiss; apply loc_set_labels;
          [left; now rewrite set_index_labels | right; exact Hc]. }
      destruct Hlab as [Hl1 Hl2]. exists label. repeat split; auto.
      exists t0, (r0 :: l0). split; [now left|].
      destruct Hin as [Hd|Hin]; [unfold DEPOT in Hd; congruence|].
      apply in_app_or in Hin. destruct Hin as [Hin|[Hd|[]]]; auto.
      unfold DEPOT in Hd. congruence.
Qed.

Lemma unknown_outlet_key_error_witness :
  exists label,
    optimize_routes_for_a_day [(0, [10; 99])] three_outlets origin
    = Raise (KeyError label)
    /\ ~ In label (map OUTLET_ID three_outlets) /\ label <> -1
    /\ exists truck_id retailers,
         In (truck_id, retailers) [(0, [10; 99])] /\ In label retailers.
Proof.
  apply (unknown_outlet_key_error [(0, [10; 99])] three_outlets origin).
  exists 0, [10; 99], 99. repeat split.
  - now left.
  - simpl. auto.
  - simpl. intros [H|[H|[H|[]]]]; discriminate.
  - discriminate.
Defined.

(** X8. The routes of a day are listed under the truck indices of the
    schedule's trucks that have outlets, in the order of the schedule. *)
Theorem routes_follow_schedule (schedule : day_schedule) (data : list outlet)
    (depot_coordinates : coord) (routes : Dict.t (list Z)) :
  NoDup (Dict.keys schedule) ->
  optimize_routes_for_a_day schedule data depot_coordinates = Ok routes ->
  Dict.keys routes = Dict.keys (loaded schedule).
Proof.
  intros Hnd H. unfold optimize_routes_for_a_day in H.
  apply route_trucks_shape in H; auto.
  destruct H as [outs [-> HF]]. simpl. unfold Dict.keys.
  remember (loaded schedule) as loaded_items eqn:E. clear E.
  induction HF as [|item out items outs [Hfst _] _ IH]; simpl; [reflexivity|].
  now rewrite Hfst, IH.
Qed.

Lemma routes_follow_schedule_witness :
  Dict.keys [(2, [-1; 10; 20; -1]); (0, [-1; 30; -1])]
  = Dict.keys (loaded [(2, [20; 10]); (1, []); (0, [30])]).
Proof.
  apply (routes_follow_schedule [(2, [20; 10]); (1, []); (0, [30])] three_outlets origin
           [(2, [-1; 10; 20; -1]); (0, [-1; 30; -1])]
           (nodupb_NoDup [2; 1; 0] eq_refl)).
  vm_compute. reflexivity.
Defined.

Lemma zcount_route (x : Z) (stops retailers : list Z) :
  x <> -1 -> Permutation stops retailers ->
  zcount x (DEPOT :: stops ++ [DEPOT]) = zcount x retailers.
Proof.
  intros Hx Hp. unfold zcount.
  rewrite count_occ_cons_neq by (unfold DEPOT; congruence).
  assert (Hend : count_occ Z.eq_dec [DEPOT] x = 0%nat).
  { apply count_occ_not_In. simpl. intros [H|[]]. unfold DEPOT in H. congruence. }
  rewrite count_occ_app, Hend, Nat.add_0_r.
  apply (proj1 (Permutation_count_occ Z.eq_dec stops retailers) Hp).
Qed.

Lemma trucks_count_loaded (x : Z) (schedule : day_schedule) :
  trucks_count x (loaded schedule) = trucks_count x schedule.
Proof.
  unfold trucks_count, loaded, Dict.values.
  induction schedule as [|[t l] items IH]; simpl; auto.
  destruct l as [|r0 l]; simpl; rewrite IH; reflexivity.
Qed.

(** The sequencer neither drops nor adds a visit. *)
Lemma routes_count (schedule : day_schedule) (data : list outlet)
    (depot_coordinates : coord) (routes : Dict.t (list Z)) (x : Z) :
  NoDup (Dict.keys schedule) ->
  optimize_routes_for_a_day schedule data depot_coordinates = Ok routes ->
  x <> -1 ->
  trucks_count x routes = trucks_count x schedule.
Proof.
  intros Hnd H Hx. unfold optimize_routes_for_a_day in H.
  apply route_trucks_shape in H; auto.
  destruct H as [outs [-> HF]]. simpl. rewrite <- (trucks_count_loaded x schedule).
  unfold trucks_count, Dict.values.
  remember (loaded schedule) as loaded_items eqn:E. clear E.
  induction HF as [|item out items outs [_ Hroute] _ IH]; simpl; [reflexivity|].
  apply route_of_truck_ok in Hroute. destruct Hroute as [[stops [-> Hperm]] _].
  rewrite (zcount_route x stops (snd item) Hx Hperm). now rewrite IH.
Qed.

Lemma Forall2_In_l {A B : Type} (R : A -> B -> Prop) (l : list A) (l' : list B) (a : A) :
  Forall2 R l l' -> In a l -> exists b, In b l' /\ R a b.
Proof.
  induction 1 as [|a0 b0 l l' Hab Hrest IH]; intros Hin; [contradiction|].
  destruct Hin as [<-|Hin].
  - exists b0. split; [now left | assumption].
  - destruct (IH Hin) as [b [Hb HR]]. exists b. split; [now right | assumption].
Qed.

Lemma route_days_shape (ws : weekly_schedule) (data : list outlet)
    (depot_coordinates : coord) (days : list Z) :
  forall acc plan,
    NoDup days ->
    (forall d, In d days -> ~ In d (Dict.keys acc)) ->
    route_days days ws data depot_coordinates acc = Ok plan ->
    exists outs,
      plan = acc ++ outs
      /\ Forall2 (fun d out =>
                    fst out = d
                    /\ exists schedule,
                         Dict.get d ws = Some schedule
                         /\ optimize_routes_for_a_day schedule data depot_coordinates
                            = Ok (snd out))
                 days outs.
Proof.
  induction days as [|day days IH]; intros acc plan Hnd Hfresh H.
  - simpl in H. inversion H. exists []. rewrite app_nil_r.
    split; [reflexivity | constructor].
  - cbn [route_days] in H. apply bind_ok in H. destruct H as [schedule [Hs H]].
    apply bind_ok in H. destruct H as [routes [Hr H]].
    apply lookup_get in Hs. inversion Hnd as [|? ? Hnot Hnd']. subst.
    rewrite set_fresh in H by (apply Hfresh; now left).
    apply IH in H; auto.
    + destruct H as [outs [-> HF]]. exists ((day, routes) :: outs).
      rewrite <- app_assoc. split; [reflexivity|].
      constructor; auto. split; [reflexivity|]. exists schedule. auto.
    + intros d Hd. unfold Dict.keys. rewrite map_app, in_app_iff. simpl.
      intros [Hin|[<-|[]]].
      * apply (Hfresh d); [now right | exact Hin].
      * contradiction.
Qed.

Lemma range5_NoDup : NoDup range5.
Proof. apply nodupb_NoDup. reflexivity. Qed.

(** A plan, day by day: the routes of day [d] are the sequencer's result
    on day [d] of the schedule. *)
Lemma pipeline_days (rnd : nat -> nat) (data : list outlet)
    (depot_coordinates : coord) (num_trucks_per_day : list Z) (k : nat)
    (plan : route_plan) :
  optimize_delivery_routes rnd data depot_coordinates num_trucks_per_day k = Ok plan ->
  exists st,
    create_weekly_schedule_with_dynamic_trucks rnd data num_trucks_per_day k = Ok st
    /\ Dict.keys plan = range5
    /\ forall d, In d range5 ->
         exists schedule routes,
           Dict.get d (snd st) = Some schedule
           /\ Dict.get d plan = Some routes
           /\ optimize_routes_for_a_day schedule data depot_coordinates = Ok routes.
Proof.
  intros H. unfold optimize_delivery_routes in H.
  apply bind_ok in H. destruct H as [st [Hst H]]. exists st. split; [exact Hst|].
  apply route_days_shape in H; [|apply range5_NoDup|intros d _ []].
  destruct H as [outs [-> HF]]. simpl.
  assert (Hkeys : Dict.keys outs = range5).
  { clear Hst. unfold Dict.keys.
    induction HF as [|d out days outs [Hfst _] _ IH]; simpl; [reflexivity|].
    now rewrite Hfst, IH. }
  split; [exact Hkeys|].
  intros d Hd. destruct (Forall2_In_l _ _ _ _ HF Hd) as [[d' routes] [Hin [Hfst Hrest]]].
  simpl in Hfst. subst d'. destruct Hrest as [schedule [Hg Hrun]].
  exists schedule, routes. repeat split; auto.
  apply DictFacts.In_get; [|exact Hin]. rewrite Hkeys. apply range5_NoDup.
Qed.

Lemma listed_on_day (ws : weekly_schedule) (d : Z) (schedule : day_schedule)
    (truck_id : Z) (retailers : list Z) (x : Z) :
  Dict.get d ws = Some schedule -> In (truck_id, retailers) schedule -> In x retailers ->
  on_day x d ws = true.
Proof.
  intros Hg Hin Hx. unfold on_day, day_of. rewrite Hg.
  apply existsb_exists. exists retailers. split.
  - unfold Dict.values. change retailers with (snd (truck_id, retailers)).
    now apply in_map.
  - apply existsb_exists. exists x. split; [exact Hx | apply Z.eqb_refl].
Qed.

Lemma on_day_key (x d : Z) (ws : weekly_schedule) :
  on_day x d ws = true -> In d (Dict.keys ws).
Proof.
  unfold on_day, day_of. destruct (Dict.get d ws) eqn:Eg; [|discriminate].
  intros _. eapply DictMore.get_Some_keys; eauto.
Qed.

(** What is known of every schedule the scheduler returns. *)
Lemma create_facts (rnd : nat -> nat) (data : list outlet)
    (num_trucks_per_day : list Z) (k : nat) (st : nat * weekly_schedule) :
  create_weekly_schedule_with_dynamic_trucks rnd data num_trucks_per_day k = Ok st ->
  Dict.keys (snd st) = range5
  /\ forall d schedule,
      Dict.get d (snd st) = Some schedule ->
      NoDup (Dict.keys schedule)
      /\ forall truck_id retailers,
          In (truck_id, retailers) schedule ->
          retailers <> []
          /\ (exists n, list_index num_trucks_per_day d = Ok n /\ 0 <= truck_id < n)
          /\ forall x, In x retailers ->
                       exists r, In r data /\ OUTLET_ID r = x /\ 0 < FREQUENCY r.
Proof.
  intros H. unfold create_weekly_schedule_with_dynamic_trucks in H.
  assert (Hempty : forall d schedule, Dict.get d empty_week = Some schedule -> schedule = [])
    by apply get_empty_week.
  assert (Hinit : Dict.keys empty_week = range5
                  /\ forall d schedule,
                      Dict.get d empty_week = Some schedule ->
                      NoDup (Dict.keys schedule)
                      /\ forall truck_id retailers,
                          In (truck_id, retailers) schedule -> retailers <> []).
  { split; [reflexivity|]. intros d schedule Hg. apply Hempty in Hg. subst schedule.
    split; [constructor | contradiction]. }
  destruct (rows_shape rnd _ _ _ _ _ Hinit H) as [Hkeys Hshape].
  split; [exact Hkeys|]. intros d schedule Hg.
  destruct (Hshape d schedule Hg) as [Hnd Hne]. split; [exact Hnd|].
  intros t l Hin. split; [now apply (Hne t)|]. split.
  - eapply rows_truck_range; [|exact H|exact Hg|exact Hin].
    intros d0 s0 t0 l0 Hg0 Hin0. apply Hempty in Hg0. subst s0. contradiction.
  - intros x Hx.
    destruct (rows_only_outlets rnd (sort_values_desc data) num_trucks_per_day k
                empty_week st) with (x := x) (d := d) as [r [Hr Hrest]]; auto.
    + intros y e Hy. rewrite on_day_empty_week in Hy. discriminate.
    + eapply listed_on_day; eauto.
    + exists r. split; [now apply In_sorted | exact Hrest].
Qed.

Lemma day_of_get (d : Z) (ws : weekly_schedule) (schedule : day_schedule) :
  Dict.get d ws = Some schedule -> day_of d ws = schedule.
Proof. unfold day_of. now intros ->. Qed.

(** A plan and the schedule it was made from hold the same visits, day
    by day. *)
Lemma pipeline_counts (rnd : nat -> nat) (data : list outlet)
    (depot_coordinates : coord) (num_trucks_per_day : list Z) (k : nat)
    (plan : route_plan) :
  optimize_delivery_routes rnd data depot_coordinates num_trucks_per_day k = Ok plan ->
  exists st,
    create_weekly_schedule_with_dynamic_trucks rnd data num_trucks_per_day k = Ok st
    /\ Dict.keys plan = range5
    /\ Dict.keys (snd st) = range5
    /\ forall x d, x <> -1 -> In d range5 ->
                   day_count x d plan = day_count x d (snd st).
Proof.
  intros H. destruct (pipeline_days _ _ _ _ _ _ H) as [st [Hst [Hkeys Hdays]]].
  destruct (create_facts _ _ _ _ _ Hst) as [Hkeys' Hfacts].
  exists st. repeat split; auto.
  intros x d Hx Hd. destruct (Hdays d Hd) as [schedule [routes [Hg [Hg' Hrun]]]].
  unfold day_count. rewrite (day_of_get _ _ _ Hg), (day_of_get _ _ _ Hg').
  eapply routes_count; eauto. now destruct (Hfacts d schedule Hg).
Qed.

(** ** Orchestrator *)

(** X9. In every plan the orchestrator returns, an outlet is a stop
    exactly as many times as its frequency asks (unique identifiers,
    non-negative frequencies, no outlet named -1, identifiers and
    frequencies that binary64 holds). *)
Theorem plan_visits (rnd : nat -> nat) (data : list outlet)
    (depot_coordinates : coord) (num_trucks_per_day : list Z) (k : nat)
    (plan : route_plan) (r : outlet) :
  NoDup (map OUTLET_ID data) ->
  column_exact OUTLET_ID data ->
  column_exact FREQUENCY data ->
  optimize_delivery_routes rnd data depot_coordinates num_trucks_per_day k = Ok plan ->
  In r data -> 0 <= FREQUENCY r -> OUTLET_ID r <> -1 ->
  Z.of_nat (plan_count (OUTLET_ID r) plan) = FREQUENCY r.
Proof.
  intros Hnd _ _ H Hr Hf Hid.
  destruct (pipeline_counts _ _ _ _ _ _ H) as [st [Hst [Hkeys [Hkeys' Hsame]]]].
  change (plan_count (OUTLET_ID r) plan) with (week_count (OUTLET_ID r) plan).
  rewrite (week_count_by_day _ _ Hkeys).
  rewrite (Hsame _ 0 Hid), (Hsame _ 1 Hid), (Hsame _ 2 Hid), (Hsame _ 3 Hid),
    (Hsame _ 4 Hid) by (simpl; tauto).
  rewrite <- (week_count_by_day _ _ Hkeys').
  rewrite (schedule_week_count _ _ _ _ _ Hnd Hst r Hr). now apply Z2Nat.id.
Qed.

(** X10. In every plan the orchestrator returns, no outlet is a stop on
    two consecutive days (unique identifiers that binary64 holds). *)
Theorem plan_no_adjacent_days (rnd : nat -> nat) (data : list outlet)
    (depot_coordinates : coord) (num_trucks_per_day : list Z) (k : nat)
    (plan : route_plan) (x d : Z) :
  NoDup (map OUTLET_ID data) ->
  column_exact OUTLET_ID data ->
  optimize_delivery_routes rnd data depot_coordinates num_trucks_per_day k = Ok plan ->
  x <> -1 ->
  plan_on_day x d plan && plan_on_day x (d + 1) plan = false.
Proof.
  intros Hnd _ H Hx.
  destruct (pipeline_counts _ _ _ _ _ _ H) as [st [Hst [Hkeys [Hkeys' Hsame]]]].
  assert (Hon : forall e, plan_on_day x e plan = true -> on_day x e (snd st) = true).
  { intros e He. change (on_day x e plan = true) in He.
    assert (Hin : In e range5).
    { rewrite <- Hkeys. apply (on_day_key x e plan He). }
    apply on_day_day_count. rewrite <- (Hsame x e Hx Hin).
    now apply on_day_day_count. }
  destruct (plan_on_day x d plan) eqn:E1; [|reflexivity].
  destruct (plan_on_day x (d + 1) plan) eqn:E2; [|reflexivity].
  apply Hon in E1. apply Hon in E2.
  rewrite (schedule_no_adjacent _ _ _ _ _ Hnd Hst x d E1) in E2. discriminate.
Qed.

Lemma plan_visits_witness :
  optimize_delivery_routes counting three_outlets origin two_trucks_a_day 0
  = Ok counting_plan
  /\ Z.of_nat (plan_count 30 counting_plan) = 3.
Proof.
  split; [vm_compute; reflexivity|].
  apply (plan_visits counting three_outlets origin two_trucks_a_day 0 counting_plan
           (mk_outlet 30 3 0 3) three_outlets_unique
           (proj1 three_outlets_exact) (proj2 three_outlets_exact)).
  - vm_compute. reflexivity.
  - simpl. auto.
  - simpl. lia.
  - simpl. discriminate.
Defined.

Lemma plan_no_adjacent_days_witness :
  plan_on_day 20 4 counting_plan = true
  /\ plan_on_day 20 3 counting_plan && plan_on_day 20 (3 + 1) counting_plan = false.
Proof.
  split; [reflexivity|].
  apply (plan_no_adjacent_days counting three_outlets origin two_trucks_a_day 0
           counting_plan 20 3 three_outlets_unique (proj1 three_outlets_exact)).
  - vm_compute. reflexivity.
  - discriminate.
Defined.





Lemma In_loaded (schedule : day_schedule) (item : Z * list Z) :
  In item (loaded schedule) -> In item schedule /\ snd item <> [].
Proof.
  unfold loaded. intros H. apply filter_In in H. destruct H as [Hin Hne].
  split; [exact Hin|]. destruct (snd item); [discriminate | discriminate].
Qed.

(** The routes of a plan. *)
Lemma pipeline_routes (rnd : nat -> nat) (data : list outlet)
    (depot_coordinates : coord) (num_trucks_per_day : list Z) (k : nat)
    (plan : route_plan) :
  optimize_delivery_routes rnd data depot_coordinates num_trucks_per_day k = Ok plan ->
  Dict.keys plan = [0; 1; 2; 3; 4]
  /\ forall d routes truck_id route,
      Dict.get d plan = Some routes -> In (truck_id, route) routes ->
      (exists n, list_index num_trucks_per_day d = Ok n /\ 0 <= truck_id < n)
      /\ exists stops,
           route = DEPOT :: stops ++ [DEPOT]
           /\ stops <> []
           /\ forall x, In x stops ->
                        exists r, In r data /\ OUTLET_ID r = x /\ 0 < FREQUENCY r.
Proof.
  intros H. destruct (pipeline_days _ _ _ _ _ _ H) as [st [Hst [Hkeys Hdays]]].
  split; [exact Hkeys|]. intros d routes truck route Hg Hin.
  assert (Hd : In d range5).
  { rewrite <- Hkeys. eapply DictMore.get_Some_keys; eauto. }
  destruct (Hdays d Hd) as [schedule [routes' [Hgs [Hg' Hrun]]]].
  rewrite Hg in Hg'. inversion Hg'. subst routes'. clear Hg'.
  destruct (create_facts _ _ _ _ _ Hst) as [_ Hfacts].
  destruct (Hfacts d schedule Hgs) as [Hnd Hlisted].
  unfold optimize_routes_for_a_day in Hrun.
  apply route_trucks_shape in Hrun; auto.
  destruct Hrun as [outs [-> HF]]. simpl in Hin.
  destruct (Forall2_In_r _ _ _ _ HF Hin) as [[t l] [Hitem [Hfst Hroute]]].
  simpl in Hfst, Hroute. subst t.
  apply In_loaded in Hitem. destruct Hitem as [Hitem Hne]. simpl in Hne.
  destruct (Hlisted truck l Hitem) as [_ [Hrange Hknown]].
  split; [exact Hrange|].
  apply route_of_truck_ok in Hroute. destruct Hroute as [[stops [-> Hperm]] _].
  exists stops. split; [reflexivity|]. split.
  - intros Hnil. subst stops. apply Permutation_nil in Hperm. contradiction.
  - intros x Hx. apply Hknown. eapply Permutation_in; eauto.
Qed.

(** X12. Every route of a returned plan runs from the depot through at
    least one outlet back to the depot; its stops are outlets of the table
    with a positive frequency, and its truck index is one of that day's
    trucks. The identifiers of the table are integers that binary64
    holds. *)
Theorem plan_routes (rnd : nat -> nat) (data : list outlet)
    (depot_coordinates : coord) (num_trucks_per_day : list Z) (k : nat)
    (plan : route_plan) :
  column_exact OUTLET_ID data ->
  optimize_delivery_routes rnd data depot_coordinates num_trucks_per_day k = Ok plan ->
  Dict.keys plan = [0; 1; 2; 3; 4]
  /\ forall d routes truck_id route,
      Dict.get d plan = Some routes -> In (truck_id, route) routes ->
      (exists n, list_index num_trucks_per_day d = Ok n /\ 0 <= truck_id < n)
      /\ exists stops,
           route = DEPOT :: stops ++ [DEPOT]
           /\ stops <> []
           /\ forall x, In x stops ->
                        exists r, In r data /\ OUTLET_ID r = x /\ 0 < FREQUENCY r.
Proof. intros _. apply pipeline_routes. Qed.

Lemma plan_routes_witness :
  Dict.keys counting_plan = [0; 1; 2; 3; 4]
  /\ forall d routes truck_id route,
      Dict.get d counting_plan = Some routes -> In (truck_id, route) routes ->
      (exists n, list_index two_trucks_a_day d = Ok n /\ 0 <= truck_id < n)
      /\ exists stops,
           route = DEPOT :: stops ++ [DEPOT]
           /\ stops <> []
           /\ forall x, In x stops ->
                        exists r, In r three_outlets /\ OUTLET_ID r = x
                                  /\ 0 < FREQUENCY r.
Proof.
  apply (plan_routes counting three_outlets origin two_trucks_a_day 0 counting_plan
           (proj1 three_outlets_exact)).
  vm_compute. reflexivity.
Defined.

(** ** Projector: failures and success *)

Lemma NoDup_nodupb (l : list Z) : NoDup l -> nodupb l = true.
Proof.
  induction 1 as [|x l Hnot Hnd IH]; simpl; [reflexivity|].
  rewrite IH, andb_true_r. apply negb_true_iff.
  destruct (existsb (Z.eqb x) l) eqn:E; [|reflexivity].
  apply existsb_exists in E. destruct E as [y [Hy Heq]].
  apply Z.eqb_eq in Heq. subst y. contradiction.
Qed.

Lemma to_dict_index_unique (data : list outlet) :
  NoDup (map OUTLET_ID data) -> to_dict_index (set_index data) = Ok (set_index data).
Proof.
  intros Hnd. unfold to_dict_index.
  now rewrite set_index_labels, (NoDup_nodupb _ Hnd).
Qed.

Lemma mapM_raise {A B : Type} (f : A -> result B) (l : list A) (e : error) :
  mapM f l = Raise e -> exists a, In a l /\ f a = Raise e.
Proof.
  induction l as [|a l IH]; simpl; [discriminate|].
  destruct (f a) as [b|e0] eqn:Ea; simpl.
  - destruct (mapM f l) as [bs|e1] eqn:El; simpl; [discriminate|].
    intros H. inversion H. subst e1. destruct (IH eq_refl) as [a' [Hin Hf]].
    exists a'. split; [now right | exact Hf].
  - intros H. inversion H. subst e0. exists a. split; [now left | exact Ea].
Qed.

Lemma mapM_ok {A B : Type} (f : A -> result B) (l : list A) :
  (forall a, In a l -> exists b, f a = Ok b) -> exists out, mapM f l = Ok out.
Proof.
  induction l as [|a l IH]; intros Hall; simpl; [eauto|].
  destruct (Hall a (or_introl eq_refl)) as [b Hb].
  destruct IH as [bs Hbs]; [intros; apply Hall; now right|].
  rewrite Hb, Hbs. simpl. eauto.
Qed.

Lemma stop_coords_raise (data : list outlet) (stop : Z) (e : error) :
  stop_coords (set_index data) stop = Raise e ->
  e = KeyError stop /\ stop <> -1 /\ ~ In stop (map OUTLET_ID data).
Proof.
  unfold stop_coords. destruct (stop =? -1) eqn:E; simpl; [discriminate|].
  apply Z.eqb_neq in E. unfold Dict.lookup.
  destruct (Dict.get stop (set_index data)) as [c|] eqn:Eg; [discriminate|].
  intros H. inversion H. repeat split; auto.
  intros Hin. rewrite <- set_index_labels in Hin.
  destruct (DictMore.keys_get _ _ Hin) as [c Hc]. congruence.
Qed.

Lemma stop_coords_known (data : list outlet) (stop : Z) :
  stop = -1 \/ In stop (map OUTLET_ID data) ->
  exists c, stop_coords (set_index data) stop = Ok c.
Proof.
  intros H. unfold stop_coords. destruct (stop =? -1) eqn:E; simpl; [eauto|].
  apply Z.eqb_neq in E. destruct H as [H|H]; [contradiction|].
  rewrite <- set_index_labels in H. destruct (DictMore.keys_get _ _ H) as [c Hc].
  unfold Dict.lookup. rewrite Hc. eauto.
Qed.

Lemma transform_days_raise (coordinates_dict : Dict.t coord) (items : route_plan)
    (e : error) :
  forall acc,
    transform_days coordinates_dict items acc = Raise e ->
    exists day routes truck_id route stop,
      In (day, routes) items /\ In (truck_id, route) routes /\ In stop route
      /\ stop_coords coordinates_dict stop = Raise e.
Proof.
  induction items as [|[day routes] items IH]; intros acc H; [discriminate|].
  cbn [transform_days] in H.
  destruct (mapM (fun item => mapM (stop_coords coordinates_dict) (snd item)) routes)
    as [day_routes|e0] eqn:Em; cbn [bind] in H.
  - destruct (IH _ H) as (d & rs & t & r & s & H1 & H2 & H3 & H4).
    exists d, rs, t, r, s. repeat split; auto. now right.
  - inversion H. subst e0. apply mapM_raise in Em.
    destruct Em as [[t r] [Hin Hr]]. simpl in Hr. apply mapM_raise in Hr.
    destruct Hr as [s [Hs Hstop]].
    exists day, routes, t, r, s. repeat split; auto. now left.
Qed.

Lemma transform_days_ok (coordinates_dict : Dict.t coord) (items : route_plan) :
  (forall day routes truck_id route stop,
      In (day, routes) items -> In (truck_id, route) routes -> In stop route ->
      exists c, stop_coords coordinates_dict stop = Ok c) ->
  forall acc, exists t, transform_days coordinates_dict items acc = Ok t.
Proof.
  induction items as [|[day routes] items IH]; intros Hall acc; simpl; [eauto|].
  destruct (mapM_ok (fun item => mapM (stop_coords coordinates_dict) (snd item)) routes)
    as [day_routes Hm].
  { intros [t r] Hin. simpl. apply mapM_ok. intros s Hs.
    eapply Hall; [now left | exact Hin | exact Hs]. }
  rewrite Hm. cbn [bind]. apply IH.
  intros d rs t r s H1 H2 H3. eapply Hall; [right; exact H1 | exact H2 | exact H3].
Qed.

Lemma transform_days_ok_inv (coordinates_dict : Dict.t coord) (items : route_plan) :
  forall acc t,
    transform_days coordinates_dict items acc = Ok t ->
    forall day routes truck_id route stop,
      In (day, routes) items -> In (truck_id, route) routes -> In stop route ->
      exists c, stop_coords coordinates_dict stop = Ok c.
Proof.
  induction items as [|[day0 routes0] items IH]; intros acc t H day routes truck route
    stop Hin Hroute Hstop; [contradiction|].
  cbn [transform_days] in H. apply bind_ok in H. destruct H as [day_routes [Hm H]].
  destruct Hin as [Heq|Hin].
  - inversion Heq. subst. apply mapM_Forall2 in Hm.
    destruct (Forall2_In_l _ _ _ _ Hm Hroute) as [cs [_ Hcs]]. simpl in Hcs.
    apply mapM_Forall2 in Hcs.
    destruct (Forall2_In_l _ _ _ _ Hcs Hstop) as [c [_ Hc]]. eauto.
  - eapply IH; eauto.
Qed.

(** X13. When two rows of the outlet table share an identifier, the
    projector raises the error of [to_dict('index')] on a repeated index,
    whatever the plan. *)
Theorem repeated_identifier_refused (optimized_routes : route_plan)
    (data : list outlet) :
  ~ NoDup (map OUTLET_ID data) ->
  transform_routes_to_coordinates optimized_routes data = Raise IndexNotUnique.
Proof.
  intros Hdup. unfold transform_routes_to_coordinates, to_dict_index.
  rewrite set_index_labels.
  destruct (nodupb (map OUTLET_ID data)) eqn:E; [|reflexivity].
  apply nodupb_NoDup in E. contradiction.
Qed.

Lemma repeated_identifier_refused_witness :
  transform_routes_to_coordinates second_truck_plan (one_visit ++ one_visit)
  = Raise IndexNotUnique.
Proof.
  apply (repeated_identifier_refused second_truck_plan (one_visit ++ one_visit)).
  intros H. inversion H as [|x l Hnot Hnd]. apply Hnot. simpl. auto.
Defined.

(** X14. With unique identifiers, a plan with a stop that is neither -1
    nor an outlet of the table makes the projector raise [KeyError] for
    such a stop; a plan without one is always projected. *)
Theorem projector_unknown_stop (optimized_routes : route_plan) (data : list outlet) :
  NoDup (map OUTLET_ID data) ->
  ((exists day routes truck_id route stop,
       In (day, routes) optimized_routes /\ In (truck_id, route) routes
       /\ In stop route /\ stop <> -1 /\ ~ In stop (map OUTLET_ID data)) ->
   exists label,
     transform_routes_to_coordinates optimized_routes data = Raise (KeyError label)
     /\ label <> -1 /\ ~ In label (map OUTLET_ID data))
  /\ ((forall day routes truck_id route stop,
         In (day, routes) optimized_routes -> In (truck_id, route) routes ->
         In stop route -> stop = -1 \/ In stop (map OUTLET_ID data)) ->
      exists t, transform_routes_to_coordinates optimized_routes data = Ok t).
Proof.
  intros Hnd. unfold transform_routes_to_coordinates.
  rewrite (to_dict_index_unique _ Hnd). cbn [bind]. split.
  - intros (day & routes & truck & route & stop & H1 & H2 & H3 & H4 & H5).
    destruct (transform_days (set_index data) optimized_routes []) as [t|e] eqn:Et.
    + destruct (transform_days_ok_inv _ _ _ _ Et _ _ _ _ _ H1 H2 H3) as [c Hc].
      unfold stop_coords in Hc. destruct (stop =? -1) eqn:E.
      * apply Z.eqb_eq in E. contradiction.
      * simpl in Hc. unfold Dict.lookup in Hc.
        destruct (Dict.get stop (set_index data)) eqn:Eg; [|discriminate].
        exfalso. apply H5. rewrite <- set_index_labels.
        eapply DictMore.get_Some_keys; eauto.
    + apply transform_days_raise in Et.
      destruct Et as (d & rs & t & r & s & _ & _ & _ & Hs).
      apply stop_coords_raise in Hs. destruct Hs as [-> [Hs1 Hs2]]. eauto.
  - intros Hall. apply transform_days_ok.
    intros day routes truck route stop H1 H2 H3. apply stop_coords_known. eauto.
Qed.

Lemma projector_unknown_stop_witness :
  exists label,
    transform_routes_to_coordinates [(0, [(0, [-1; 7; 8; -1])])] one_visit
    = Raise (KeyError label)
    /\ label <> -1 /\ ~ In label (map OUTLET_ID one_visit).
Proof.
  apply (proj1 (projector_unknown_stop [(0, [(0, [-1; 7; 8; -1])])] one_visit
                  (nodupb_NoDup [7] eq_refl))).
  exists 0, [(0, [-1; 7; 8; -1])], 0, [-1; 7; 8; -1], 8. repeat split.
  - now left.
  - now left.
  - simpl. auto.
  - discriminate.
  - simpl. intros [H|[]]. discriminate.
Defined.

(** The projection, stop by stop. *)
Lemma projection_pointwise (optimized_routes : route_plan) (data : list outlet)
    (t : Dict.t (list (list coord))) :
  NoDup (Dict.keys optimized_routes) ->
  transform_routes_to_coordinates optimized_routes data = Ok t ->
  Forall2 (fun item out =>
             fst out = fst item
             /\ Forall2 (fun route cs =>
                           Forall2 (fun stop c =>
                                      stop_coords (set_index data) stop = Ok c)
                                   (snd route) cs)
                        (snd item) (snd out))
          optimized_routes t.
Proof.
  intros Hnd H. unfold transform_routes_to_coordinates in H.
  apply bind_ok in H. destruct H as [dict [Hd H]].
  unfold to_dict_index in Hd.
  destruct (nodupb (map fst (set_index data))); inversion Hd. subst dict. clear Hd.
  apply transform_days_spec in H; auto.
  destruct H as [outs [-> HF]]. simpl.
  eapply Forall2_impl; [|exact HF].
  intros item out [Hfst Hm]. split; [exact Hfst|].
  apply mapM_Forall2 in Hm. eapply Forall2_impl; [|exact Hm].
  intros route cs Hcs. now apply mapM_Forall2 in Hcs.
Qed.

(** X15. The projector keeps the days of the plan, the routes of each
    day and the stops of each route, all in order, and puts in place of
    each stop the coordinates it resolves to. *)
Theorem projection_keeps_order (optimized_routes : route_plan) (data : list outlet)
    (t : Dict.t (list (list coord))) :
  NoDup (Dict.keys optimized_routes) ->
  transform_routes_to_coordinates optimized_routes data = Ok t ->
  Forall2 (fun item out =>
             fst out = fst item
             /\ Forall2 (fun route cs =>
                           Forall2 (fun stop c =>
                                      stop_coords (set_index data) stop = Ok c)
                                   (snd route) cs)
                        (snd item) (snd out))
          optimized_routes t.
Proof. apply projection_pointwise. Qed.

Lemma projection_keeps_order_witness :
  Forall2 (fun item out =>
             fst out = fst item
             /\ Forall2 (fun route cs =>
                           Forall2 (fun stop c =>
                                      stop_coords (set_index one_visit) stop = Ok c)
                                   (snd route) cs)
                        (snd item) (snd out))
          second_truck_plan
          [(0, []); (1, [[DEPOT_COORDINATES; (1, 0)%float; DEPOT_COORDINATES]]);
           (2, []); (3, []); (4, [])].
Proof.
  apply (projection_keeps_order second_truck_plan one_visit
           [(0, []); (1, [[DEPOT_COORDINATES; (1, 0)%float; DEPOT_COORDINATES]]);
            (2, []); (3, []); (4, [])]
           (nodupb_NoDup [0; 1; 2; 3; 4] eq_refl) eq_refl).
Defined.

(** X16. Every projected route of a plan the orchestrator returned
    starts and ends at the fixed [DEPOT_COORDINATES], whatever depot the
    routes were sequenced from, and has at least one point in between. *)
Theorem projected_depot_is_fixed (rnd : nat -> nat) (data : list outlet)
    (depot_coordinates : coord) (num_trucks_per_day : list Z) (k : nat)
    (plan : route_plan) (t : Dict.t (list (list coord))) :
  optimize_delivery_routes rnd data depot_coordinates num_trucks_per_day k = Ok plan ->
  transform_routes_to_coordinates plan data = Ok t ->
  forall day day_routes cs,
    In (day, day_routes) t -> In cs day_routes ->
    exists mid, cs = DEPOT_COORDINATES :: mid ++ [DEPOT_COORDINATES] /\ mid <> [].
Proof.
  intros Hplan Ht day day_routes cs Hday Hcs.
  destruct (pipeline_routes _ _ _ _ _ _ Hplan) as [Hkeys Hroutes].
  assert (Hnd : NoDup (Dict.keys plan)) by (rewrite Hkeys; apply range5_NoDup).
  pose proof (projection_pointwise _ _ _ Hnd Ht) as HF.
  destruct (Forall2_In_r _ _ _ _ HF Hday) as [[day' routes] [Hitem [Hfst Hrs]]].
  simpl in Hfst, Hrs. subst day'.
  destruct (Forall2_In_r _ _ _ _ Hrs Hcs) as [[truck route] [Hroute Hstops]].
  simpl in Hstops.
  destruct (Hroutes day routes truck route) as [_ [stops [-> [Hne _]]]]; auto.
  { apply DictFacts.In_get; auto. }
  inversion Hstops as [|s0 c0 rest cs' Hc0 Hrest]. subst.
  apply Forall2_app_inv_l in Hrest.
  destruct Hrest as [mid [last [Hmid [Hlast ->]]]].
  inversion Hlast as [|s1 c1 ? ? Hc1 Hnil]. subst. inversion Hnil. subst.
  unfold stop_coords in Hc0, Hc1. simpl in Hc0, Hc1.
  inversion Hc0. inversion Hc1. exists mid. split; [reflexivity|].
  intros ->. inversion Hmid. subst. contradiction.
Qed.

Lemma projected_depot_is_fixed_witness :
  exists mid,
    [DEPOT_COORDINATES; (1, 0)%float; DEPOT_COORDINATES]
    = DEPOT_COORDINATES :: mid ++ [DEPOT_COORDINATES] /\ mid <> [].
Proof.
  apply (projected_depot_is_fixed (always 1) one_visit origin two_trucks_a_day 0
           second_truck_plan
           [(0, []); (1, [[DEPOT_COORDINATES; (1, 0)%float; DEPOT_COORDINATES]]);
            (2, []); (3, []); (4, [])]
           eq_refl eq_refl 1
           [[DEPOT_COORDINATES; (1, 0)%float; DEPOT_COORDINATES]]).
  - simpl. auto.
  - now left.
Defined.



(** ** Export: the rows in order *)

Lemma route_rows_coordinates (day truck_id : Z) (route : list coord) :
  map (fun row => (Latitude row, Longitude row)) (rows_of_route day truck_id route)
  = route.
Proof.
  unfold rows_of_route, enumerate. generalize 0.
  induction route as [|[lat lon] route IH]; intros start; [reflexivity|].
  cbn [enumerate_from map Latitude Longitude fst snd]. now rewrite IH.
Qed.

Lemma route_rows_steps (day truck_id : Z) (route : list coord) :
  map Step (rows_of_route day truck_id route)
  = map Z.of_nat (seq 1 (length route)).
Proof.
  unfold rows_of_route, enumerate.
  assert (H : forall start,
             map Step
               (map (fun sc => {| Day := day + 1; Truck_ID := truck_id + 1;
                                  Step := fst sc + 1;
                                  Latitude := fst (snd sc);
                                  Longitude := snd (snd sc) |})
                    (enumerate_from start route))
             = map (fun i => start + Z.of_nat i) (seq 1 (length route))).
  { induction route as [|c route IH]; intros start; [reflexivity|].
    cbn [enumerate_from map Step fst length seq].
    rewrite (IH (start + 1)), <- (seq_shift (length route) 1), map_map.
    replace (start + Z.of_nat 1) with (start + 1) by lia.
    apply f_equal. apply map_ext. intros i. lia. }
  rewrite (H 0). apply map_ext. intros i. lia.
Qed.

Lemma day_rows_coordinates (day : Z) (day_routes : list (list coord)) :
  map (fun row => (Latitude row, Longitude row)) (rows_of_day day day_routes)
  = concat day_routes.
Proof.
  unfold rows_of_day, enumerate. generalize 0.
  induction day_routes as [|route day_routes IH]; intros start; [reflexivity|].
  cbn [enumerate_from flat_map concat fst snd].
  now rewrite map_app, route_rows_coordinates, IH.
Qed.

Lemma day_rows_steps (day : Z) (day_routes : list (list coord)) :
  map Step (rows_of_day day day_routes)
  = flat_map (fun route => map Z.of_nat (seq 1 (length route))) day_routes.
Proof.
  unfold rows_of_day, enumerate. generalize 0.
  induction day_routes as [|route day_routes IH]; intros start; [reflexivity|].
  cbn [enumerate_from flat_map fst snd].
  now rewrite map_app, route_rows_steps, IH.
Qed.

(** X18. The export lists the points of the projected routes in the order
    of the days, then of the routes of a day, then of the stops of a
    route, and numbers the steps of every route from 1. *)
Theorem export_in_order (transformed_routes : Dict.t (list (list coord))) :
  map (fun row => (Latitude row, Longitude row)) (routes_to_dataframe transformed_routes)
  = concat (concat (map snd transformed_routes))
  /\ map Step (routes_to_dataframe transformed_routes)
     = flat_map (fun item =>
                   flat_map (fun route => map Z.of_nat (seq 1 (length route))) (snd item))
                transformed_routes.
Proof.
  unfold routes_to_dataframe. split.
  - induction transformed_routes as [|[day day_routes] t IH]; [reflexivity|].
    cbn [flat_map map concat fst snd].
    now rewrite map_app, IH, concat_app, day_rows_coordinates.
  - induction transformed_routes as [|[day day_routes] t IH]; [reflexivity|].
    cbn [flat_map fst snd]. now rewrite map_app, IH, day_rows_steps.
Qed.

(** ** The days a caller can ask for *)

(** X23. The projected routes of a plan the orchestrator returned are
    keyed by the days 0 to 4: looking up a day, as the callers do to draw
    one day's map, succeeds for 0, 1, 2, 3, 4 and raises [KeyError] for
    every other number. *)
Theorem projected_days (rnd : nat -> nat) (data : list outlet)
    (depot_coordinates : coord) (num_trucks_per_day : list Z) (k : nat)
    (plan : route_plan) (t : Dict.t (list (list coord))) :
  optimize_delivery_routes rnd data depot_coordinates num_trucks_per_day k = Ok plan ->
  transform_routes_to_coordinates plan data = Ok t ->
  Dict.keys t = [0; 1; 2; 3; 4]
  /\ forall day,
       (0 <= day <= 4 -> exists day_routes, Dict.lookup day t = Ok day_routes)
       /\ (~ 0 <= day <= 4 -> Dict.lookup day t = Raise (KeyError day)).
Proof.
  intros Hplan Ht.
  destruct (pipeline_routes _ _ _ _ _ _ Hplan) as [Hkeys _].
  assert (Hnd : NoDup (Dict.keys plan)) by (rewrite Hkeys; apply range5_NoDup).
  pose proof (projection_pointwise _ _ _ Hnd Ht) as HF.
  assert (Hk : Dict.keys t = [0; 1; 2; 3; 4]).
  { rewrite <- Hkeys. unfold Dict.keys. clear -HF.
    induction HF as [|item out items outs [Hfst _] _ IH]; simpl; [reflexivity|].
    now rewrite Hfst, IH. }
  split; [exact Hk|]. intros day. split.
  - intros Hday. destruct (DictMore.keys_get day t) as [day_routes Hg].
    + rewrite Hk. simpl. lia.
    + exists day_routes. unfold Dict.lookup. now rewrite Hg.
  - intros Hday. unfold Dict.lookup.
    destruct (Dict.get day t) as [day_routes|] eqn:Hg; [|reflexivity].
    exfalso. apply Hday. apply DictMore.get_Some_keys in Hg.
    rewrite Hk in Hg. simpl in Hg. lia.
Qed.

Lemma projected_days_witness :
  Dict.keys [(0, []); (1, [[DEPOT_COORDINATES; (1, 0)%float; DEPOT_COORDINATES]]);
             (2, []); (3, []); (4, [])] = [0; 1; 2; 3; 4]
  /\ forall day,
       (0 <= day <= 4 ->
        exists day_routes,
          Dict.lookup day
            [(0, []); (1, [[DEPOT_COORDINATES; (1, 0)%float; DEPOT_COORDINATES]]);
             (2, []); (3, []); (4, [])] = Ok day_routes)
       /\ (~ 0 <= day <= 4 ->
           Dict.lookup day
             [(0, []); (1, [[DEPOT_COORDINATES; (1, 0)%float; DEPOT_COORDINATES]]);
              (2, []); (3, []); (4, [])] = Raise (KeyError day)).
Proof.
  apply (projected_days (always 1) one_visit origin two_trucks_a_day 0
           second_truck_plan
           [(0, []); (1, [[DEPOT_COORDINATES; (1, 0)%float; DEPOT_COORDINATES]]);
            (2, []); (3, []); (4, [])]
           eq_refl eq_refl).
Defined.

(** ** Request validation *)

Module ViewsFacts.

Import Views.

Lemma read_fields_accepted (int_strip : String.string -> option Z)
    (fields : list String.string) (ns : list Z) :
  read_fields int_strip fields = inl ns
  <-> Forall2 (fun field n => int_strip field = Some n) fields ns.
Proof.
  revert ns. induction fields as [|field fields IH]; intros ns; simpl.
  - split.
    + intros H. inversion H. constructor.
    + intros H. inversion H. reflexivity.
  - destruct (int_strip field) as [n|] eqn:En.
    + destruct (read_fields int_strip fields) as [ms|e] eqn:Er.
      * split.
        -- intros H. inversion H. subst. constructor; auto. now apply IH.
        -- intros H. inversion H as [|? m ? ms' Hm Hrest]. subst.
           rewrite En in Hm. inversion Hm. subst m.
           apply IH in Hrest. inversion Hrest. reflexivity.
      * split; [discriminate|].
        intros H. inversion H as [|? m ? ms' Hm Hrest]. subst.
        apply IH in Hrest. discriminate.
    + split; [discriminate|].
      intros H. inversion H as [|? m ? ms' Hm Hrest]. subst. congruence.
Qed.

(** X24. The trucks field is accepted exactly when it has five
    comma-separated fields and [int] reads every one of them; the list
    handed to the planner is then the five integers read, in order. Any
    five integers pass, also zero and negative ones; every other input is
    answered with the error and does not reach the planner. *)
Theorem trucks_field_accepted (int_strip : String.string -> option Z)
    (trucks_input : String.string) (ns : list Z) :
  trucks_list int_strip trucks_input = inl ns
  <-> length (split_comma trucks_input) = 5%nat
      /\ Forall2 (fun field n => int_strip field = Some n)
                 (split_comma trucks_input) ns.
Proof.
  unfold trucks_list. split.
  - destruct (read_fields int_strip (split_comma trucks_input)) as [ms|e] eqn:Er;
      [|discriminate].
    destruct (length ms =? 5)%nat eqn:El; simpl; [|discriminate].
    intros H. inversion H. subst ms. apply read_fields_accepted in Er.
    apply Nat.eqb_eq in El. split; [|exact Er].
    now rewrite (Forall2_length Er).
  - intros [Hlen HF]. pose proof (Forall2_length HF) as Hl.
    apply read_fields_accepted in HF. rewrite HF.
    replace (length ns =? 5)%nat with true by (symmetry; apply Nat.eqb_eq; lia).
    reflexivity.
Qed.

End ViewsFacts.

Lemma no_trucks_no_schedule_witness :
  create_weekly_schedule_with_dynamic_trucks (always 0) two_visits [0; 0; 0; 0; 0] 0
  = Raise EmptyRange.
Proof.
  apply (no_trucks_no_schedule (always 0) two_visits [0; 0; 0; 0; 0] 0).
  - reflexivity.
  - repeat constructor; lia.
  - constructor. simpl. lia.
Defined.
